(** * R-Quotas access and permission model

    A shallow embedding of the access-scoping code of [server/storage.ts]
    (permission parsing and capping, allowed-specialty resolution, job
    visibility, job detail), of the price redaction of [server/routes.ts] and
    of the price calculation of [client/src/pages/PhotoEstimate.tsx].

    JavaScript values are modelled as they are at run time: a number is an
    IEEE 754 binary64 ([float]), an object is a finite map from property
    names to values, database tables are lists of rows, and reference
    identity (for the redaction step) is explicit in a heap. *)

From Stdlib Require Import ZArith Floats.
From stdpp Require Import gmap strings list sorting pretty.

Set Warnings "-inexact-float,-register-all".
Open Scope string_scope.

(** ** JavaScript values *)

(** The values [JSON.parse] can produce.  A [string] stands for the sequence
    of code units of the JavaScript string. *)
Inductive json : Type :=
  | JNull
  | JBool (b : bool)
  | JNum (x : float)
  | JStr (s : string)
  | JArr (elems : list json)
  | JObj (members : list (string * json)).

(** A plain object: its own enumerable properties. *)
Abbreviation jsobj := (gmap string json).

(** ToBoolean on a number: [0], [-0] and [NaN] are falsy. *)
Definition float_truthy (x : float) : bool :=
  negb (PrimFloat.eqb x 0 || PrimFloat.is_nan x).

(** ToBoolean: [null], [false], [0], [-0], [NaN] and the empty string are
    falsy; objects and arrays are truthy. *)
Definition truthy (v : json) : bool :=
  match v with
  | JNull => false
  | JBool b => b
  | JNum x => float_truthy x
  | JStr s => negb (String.eqb s "")
  | JArr _ => true
  | JObj _ => true
  end.

(** [o.k] in a boolean context; a missing property reads [undefined]. *)
Definition flag (o : jsobj) (k : string) : bool :=
  match o !! k with
  | Some v => truthy v
  | None => false
  end.

(** The members of a parsed object in source order; a repeated name keeps
    its last value. *)
Definition members_to_obj (members : list (string * json)) : jsobj :=
  foldl (λ o kv, <[kv.1 := kv.2]> o) ∅ members.

(** Index-keyed properties (arrays, string primitives). *)
Definition indexed (vs : list json) : jsobj :=
  list_to_map (imap (λ i v, (pretty i, v)) vs).

Definition string_units (s : string) : list json :=
  (λ c, JStr (String c EmptyString)) <$> String.list_ascii_of_string s.

(** The own enumerable properties copied by the spread [{ ...v }]. *)
Definition own_props (v : json) : jsobj :=
  match v with
  | JNull | JBool _ | JNum _ => ∅
  | JStr s => indexed (string_units s)
  | JArr elems => indexed elems
  | JObj members => members_to_obj members
  end.

(** [{ ...a, ...b }]: the properties of [b] win. *)
Definition spread (a b : jsobj) : jsobj := b ∪ a.

(** A completion: a normal value or a thrown exception. *)
Inductive completion (A : Type) : Type :=
  | Normal (a : A)
  | Throw.
Arguments Normal {A} a.
Arguments Throw {A}.

(** ** Permission records *)

Record Permissions : Type := mkPermissions {
  canManageUsers : bool;
  canViewAllSpecialties : bool;
  canViewPrices : bool;
  canEditPrices : bool;
  canAudit : bool
}.

Definition AllTrue : Permissions := mkPermissions true true true true true.
Definition AllFalse : Permissions :=
  mkPermissions false false false false false.

Definition permission_keys : list string :=
  ["canManageUsers"; "canViewAllSpecialties"; "canViewPrices";
   "canEditPrices"; "canAudit"].

(** The object a [Permissions] literal evaluates to. *)
Definition perms_obj (p : Permissions) : jsobj :=
  <["canManageUsers" := JBool (canManageUsers p)]>
  (<["canViewAllSpecialties" := JBool (canViewAllSpecialties p)]>
  (<["canViewPrices" := JBool (canViewPrices p)]>
  (<["canEditPrices" := JBool (canEditPrices p)]>
  (<["canAudit" := JBool (canAudit p)]> ∅)))).

(** Reading an object at type [Permissions]: each flag as the code tests it,
    an absent flag being false. *)
Definition perms_of_obj (o : jsobj) : Permissions :=
  {| canManageUsers := flag o "canManageUsers";
     canViewAllSpecialties := flag o "canViewAllSpecialties";
     canViewPrices := flag o "canViewPrices";
     canEditPrices := flag o "canEditPrices";
     canAudit := flag o "canAudit" |}.

(** Pointwise boolean ordering on permission records. *)
Definition perms_le (p q : Permissions) : Prop :=
  (canManageUsers p → canManageUsers q) ∧
  (canViewAllSpecialties p → canViewAllSpecialties q) ∧
  (canViewPrices p → canViewPrices q) ∧
  (canEditPrices p → canEditPrices q) ∧
  (canAudit p → canAudit q).

(** Modelled from the spec: [capPermissions] is imported from
    [@shared/schema], which is not among the sources.  Spec 4.1: for each of
    the five flags, effective = jobPermissions.flag AND
    companyPermissions.flag. *)
Definition capPermissions (jobPerms companyPerms : Permissions) : Permissions :=
  {| canManageUsers := canManageUsers jobPerms && canManageUsers companyPerms;
     canViewAllSpecialties :=
       canViewAllSpecialties jobPerms && canViewAllSpecialties companyPerms;
     canViewPrices := canViewPrices jobPerms && canViewPrices companyPerms;
     canEditPrices := canEditPrices jobPerms && canEditPrices companyPerms;
     canAudit := canAudit jobPerms && canAudit companyPerms |}.

(** What the code takes from outside: the built-in [JSON.parse], which
    returns a value or throws a [SyntaxError], and the constant
    [DEFAULT_EMPLOYEE_PERMISSIONS] of [@shared/schema], whose value is not
    among the sources. *)
Class Env : Type := mkEnv {
  JSON_parse : string → completion json;
  DEFAULT_EMPLOYEE_PERMISSIONS : Permissions
}.

Section Parsing.
Context {env : Env}.

(** The [try] block of [parsePermissions] (storage.ts 24-26). *)
Definition parsePermissions_try (raw : option string) : completion jsobj :=
  match raw with
  | None => Normal (spread ∅ (perms_obj DEFAULT_EMPLOYEE_PERMISSIONS))
  | Some s =>
      if String.eqb s "" then
        Normal (spread ∅ (perms_obj DEFAULT_EMPLOYEE_PERMISSIONS))
      else
        match JSON_parse s with
        | Throw => Throw
        | Normal parsed =>
            Normal (spread (perms_obj DEFAULT_EMPLOYEE_PERMISSIONS)
                           (own_props parsed))
        end
  end.

(** [parsePermissions] (storage.ts 22-30): the [catch] clause returns a
    copy of the baseline. *)
Definition parsePermissions (raw : option string) : jsobj :=
  match parsePermissions_try raw with
  | Normal o => o
  | Throw => spread ∅ (perms_obj DEFAULT_EMPLOYEE_PERMISSIONS)
  end.
End Parsing.

(** ** Database rows

    Only the columns the access model reads are kept; the remaining columns
    of a row travel with it unchanged. *)

Module Company.
Record t : Type := mk { id : Z; tradeId : Z }.
End Company.

Module CompanyUser.
Record t : Type := mk {
  id : Z; companyId : Z; userId : Z; role : string; isActive : bool;
  permissions : option string
}.
End CompanyUser.

Module Specialty.
Record t : Type := mk { id : Z; tradeId : Z; slug : string; name : string }.
End Specialty.

Module UserSpecialty.
Record t : Type := mk { companyId : Z; userId : Z; specialtyId : Z }.
End UserSpecialty.

Module Service.
Record t : Type := mk {
  id : Z; companyId : Z; specialtyId : Z; active : bool; name : string;
  pricingUnit : string; unitPrice : string
}.
End Service.

Module Job.
Record t : Type := mk {
  id : Z; companyId : Z; specialtyId : option Z; status : string;
  createdAt : option Z
}.
End Job.

Module JobItem.
(** [row] is the object the query yields for the line item. *)
Record t : Type := mk { jobId : Z; row : jsobj }.
End JobItem.

Module JobAssignment.
Record t : Type := mk {
  id : Z; jobId : Z; userId : Z; permissions : option string
}.
End JobAssignment.

Record Store : Type := mkStore {
  companies : list Company.t;
  companyUsers : list CompanyUser.t;
  specialties : list Specialty.t;
  userSpecialties : list UserSpecialty.t;
  services : list Service.t;
  jobs : list Job.t;
  jobItems : list JobItem.t;
  jobAssignments : list JobAssignment.t
}.

(** ** Query helpers *)

(** [x || d] on an integer-valued number. *)
Definition number_or (x d : Z) : Z := if decide (x = 0%Z) then d else x.

(** [arr.includes(x)] on integers. *)
Definition includes (arr : list Z) (x : Z) : bool := bool_decide (x ∈ arr).

(** An integer as a JavaScript number; exact for the 32-bit ids of the
    tables. *)
Definition number_of_Z (z : Z) : float :=
  if (z <? 0)%Z then PrimFloat.opp (PrimFloat.of_uint63 (Uint63.of_Z (- z)))
  else PrimFloat.of_uint63 (Uint63.of_Z z).

(** [new Set(ids).has(v)] for a value [v] of a request body, and the id it
    is: the set compares by value (SameValueZero), so only a number equal to
    an id is found. *)
Definition set_find (ids : list Z) (v : json) : option Z :=
  match v with
  | JNum x =>
      head (filter (λ id, PrimFloat.eqb (number_of_Z id) x = true) ids)
  | _ => None
  end.

Definition set_has (ids : list Z) (v : json) : bool :=
  bool_decide (is_Some (set_find ids v)).

(** Ascending order on a nullable timestamp, nulls last. *)
Definition createdAt_le (a b : Job.t) : Prop :=
  match Job.createdAt a, Job.createdAt b with
  | Some x, Some y => (x ≤ y)%Z
  | _, None => True
  | None, Some _ => False
  end.

#[global] Instance createdAt_le_dec a b : Decision (createdAt_le a b).
Proof.
  unfold createdAt_le.
  destruct (Job.createdAt a), (Job.createdAt b); apply _.
Defined.

Definition service_id_le (a b : Service.t) : Prop :=
  (Service.id a ≤ Service.id b)%Z.

#[global] Instance service_id_le_dec a b : Decision (service_id_le a b).
Proof. unfold service_id_le. apply _. Defined.

(** [select().from(jobs).where(eq(jobs.companyId, companyId))
     .orderBy(jobs.createdAt)]. *)
Definition companyJobs (db : Store) (companyId : Z) : list Job.t :=
  merge_sort createdAt_le
    (filter (λ j, Job.companyId j = companyId) (jobs db)).

(** ** Job list responses *)

Record Stats : Type := mkStats {
  total : nat; drafts : nat; sent : nat; approved : nat; inProgress : nat;
  done : nat
}.

Record JobsListResponse : Type := mkJobsListResponse {
  items : list Job.t;
  stats : Stats
}.

Definition emptyJobs : JobsListResponse :=
  mkJobsListResponse [] (mkStats 0 0 0 0 0 0).

(** The job statuses of [@shared/schema] (spec 3). *)
Definition JOB_STATUSES : list string :=
  ["DRAFT"; "SENT"; "APPROVED"; "SCHEDULED"; "IN_PROGRESS"; "DONE"].

(** [jobsList.filter(j => j.status === s).length]. *)
Definition countStatus (s : string) (jobsList : list Job.t) : nat :=
  length (filter (λ j, Job.status j = s) jobsList).

(** storage.ts 131-139. *)
Definition jobStats (jobsList : list Job.t) : Stats :=
  {| total := length jobsList;
     drafts := countStatus "DRAFT" jobsList;
     sent := countStatus "SENT" jobsList;
     approved := countStatus "APPROVED" jobsList;
     inProgress := countStatus "IN_PROGRESS" jobsList;
     done := countStatus "DONE" jobsList |}.

(** The result of [getJob]: the job with its line items, [myRole] and, for
    an employee, the effective and the company permissions. *)
Module JobWithItems.
Record t : Type := mk {
  job : Job.t;
  items : list jsobj;
  myRole : string;
  permissions : option Permissions;
  companyPermissions : option jsobj
}.
End JobWithItems.

(** The callback of the redaction in [getJob] (storage.ts 164-168):
    [{ ...item, unitPrice: "0", lineTotal: "0" }]. *)
Definition redactItem (item : jsobj) : jsobj :=
  <["lineTotal" := JStr "0"]> (<["unitPrice" := JStr "0"]> item).

(** The callback of [stripPrices] (routes.ts 32):
    [{ ...s, unitPrice: null }]. *)
Definition stripPrice (s : jsobj) : jsobj := <["unitPrice" := JNull]> s.

(** ** The storage operations (server/storage.ts) *)

Section Storage.
Context {env : Env}.
Variable db : Store.

(** storage.ts 267-270: [co?.tradeId || 0]. *)
Definition getCompanyTradeId (companyId : Z) : Z :=
  match head (filter (λ c, Company.id c = companyId) (companies db)) with
  | Some co => number_or (Company.tradeId co) 0
  | None => 0%Z
  end.

(** storage.ts 690-696. *)
Definition getCompanyUserPermissions (companyId userId : Z) : jsobj :=
  match head (filter (λ cu, CompanyUser.companyId cu = companyId
                            ∧ CompanyUser.userId cu = userId)
                     (companyUsers db)) with
  | None => spread ∅ (perms_obj DEFAULT_EMPLOYEE_PERMISSIONS)
  | Some cu =>
      parsePermissions (CompanyUser.permissions cu)
  end.

(** The ids of the specialties of a trade (storage.ts 336-339). *)
Definition tradeSpecialtyIds (tradeId : Z) : list Z :=
  Specialty.id <$>
    filter (λ s, Specialty.tradeId s = tradeId) (specialties db).

(** The explicit specialty assignments of a user (storage.ts 342-345). *)
Definition assignedSpecialtyIds (userId companyId : Z) : list Z :=
  UserSpecialty.specialtyId <$>
    filter (λ r, UserSpecialty.userId r = userId
                 ∧ UserSpecialty.companyId r = companyId)
           (userSpecialties db).

(** storage.ts 329-346. *)
Definition getAllowedSpecialtyIds (userId companyId : Z) (role : string)
  : list Z :=
  if String.eqb role "SUPPORT" then []
  else
    let companyTradeId := getCompanyTradeId companyId in
    if String.eqb role "OWNER" || String.eqb role "ADMIN" then
      let perms := getCompanyUserPermissions companyId userId in
      if String.eqb role "OWNER" || flag perms "canViewAllSpecialties" then
        tradeSpecialtyIds companyTradeId
      else assignedSpecialtyIds userId companyId
    else assignedSpecialtyIds userId companyId.

(** [new Map(assignments.map(a => [a.jobId, a]))]: a later entry replaces
    an earlier one with the same key. *)
Definition assignmentMap (assignments : list JobAssignment.t)
  : gmap Z JobAssignment.t :=
  foldl (λ m a, <[JobAssignment.jobId a := a]> m) ∅ assignments.

(** The filter of storage.ts 118-121:
    [jobIds.includes(j.id) ||
     (j.specialtyId && userSpecIds.includes(j.specialtyId))]. *)
Definition jobVisible (jobIds userSpecIds : list Z) (j : Job.t) : bool :=
  includes jobIds (Job.id j) ||
  match Job.specialtyId j with
  | Some s => negb (bool_decide (s = 0%Z)) && includes userSpecIds s
  | None => false
  end.

(** storage.ts 93-140. *)
Definition getJobs (userId : Z) (role : string) (companyId : Z)
  : JobsListResponse :=
  if String.eqb role "SUPPORT" then emptyJobs
  else if String.eqb role "OWNER" || String.eqb role "ADMIN" then
    let jobsList := companyJobs db companyId in
    mkJobsListResponse jobsList (jobStats jobsList)
  else
    let companyPerms := getCompanyUserPermissions companyId userId in
    let assignments :=
      filter (λ a, JobAssignment.userId a = userId) (jobAssignments db) in
    let jobIds := JobAssignment.jobId <$> assignments in
    let userSpecIds := getAllowedSpecialtyIds userId companyId role in
    if bool_decide (length jobIds = 0) && bool_decide (length userSpecIds = 0)
    then emptyJobs
    else
      let allJobs := companyJobs db companyId in
      let jobsList := filter (λ j, jobVisible jobIds userSpecIds j) allJobs in
      let amap := assignmentMap assignments in
      let jobsList :=
        (λ j,
           let assignment := amap !! Job.id j in
           let jobPerms :=
             parsePermissions (assignment ≫= JobAssignment.permissions) in
           let perms :=
             capPermissions (perms_of_obj jobPerms)
                            (perms_of_obj companyPerms) in
           j) <$> jobsList in
      mkJobsListResponse jobsList (jobStats jobsList).

(** [db.query.jobs.findFirst({ where: and(eq(jobs.id, id),
    eq(jobs.companyId, companyId)), with: { items: true } })]. *)
Definition findJob (id companyId : Z) : option (Job.t * list jsobj) :=
  match head (filter (λ j, Job.id j = id ∧ Job.companyId j = companyId)
                     (jobs db)) with
  | Some j =>
      Some (j, JobItem.row <$>
                 filter (λ it, JobItem.jobId it = Job.id j) (jobItems db))
  | None => None
  end.

(** storage.ts 142-171; [None] is [undefined]. *)
Definition getJob (id userId : Z) (role : string) (companyId : Z)
  : option JobWithItems.t :=
  if String.eqb role "SUPPORT" then None
  else
    match findJob id companyId with
    | None => None
    | Some (j, its) =>
        if String.eqb role "OWNER" || String.eqb role "ADMIN" then
          Some (JobWithItems.mk j its "OWNER" None None)
        else
          match head (filter (λ a, JobAssignment.jobId a = id
                                   ∧ JobAssignment.userId a = userId)
                             (jobAssignments db)) with
          | None => None
          | Some assignment =>
              let companyPerms := getCompanyUserPermissions companyId userId in
              let jobPerms :=
                parsePermissions (JobAssignment.permissions assignment) in
              let perms :=
                capPermissions (perms_of_obj jobPerms)
                               (perms_of_obj companyPerms) in
              let its' :=
                if negb (canViewPrices perms) then redactItem <$> its
                else its in
              Some (JobWithItems.mk j its' "USER" (Some perms)
                                    (Some companyPerms))
          end
    end.

(** storage.ts 285-306; [specialtyId] is the optional filter. *)
Definition getServices (companyId userId : Z) (role : string)
    (specialtyId : option Z) : list Service.t :=
  if String.eqb role "SUPPORT" then []
  else
    let allowedIds := getAllowedSpecialtyIds userId companyId role in
    if bool_decide (length allowedIds = 0) then []
    else
      let base s :=
        Service.companyId s = companyId ∧ Service.active s = true in
      match specialtyId with
      | Some sid =>
          if bool_decide (sid = 0%Z) then
            merge_sort service_id_le
              (filter (λ s, base s ∧ Service.specialtyId s ∈ allowedIds)
                      (services db))
          else if negb (includes allowedIds sid) then []
          else
            merge_sort service_id_le
              (filter (λ s, base s ∧ Service.specialtyId s = sid)
                      (services db))
      | None =>
          merge_sort service_id_le
            (filter (λ s, base s ∧ Service.specialtyId s ∈ allowedIds)
                    (services db))
      end.
End Storage.

(** ** Price redaction with reference identity (server/routes.ts 31-33,
       server/storage.ts 163-169)

    Arrays and objects live in a heap; an array holds references to its
    elements.  [Array.prototype.map] allocates a new array, and the spread in
    the callback allocates a new object for each element. *)

Abbreviation loc := positive.

Inductive cell : Type :=
  | CObj (o : jsobj)
  | CArr (elems : list loc).

Abbreviation heap := (gmap loc cell).

Definition alloc (h : heap) (c : cell) : heap * loc :=
  let l := fresh (dom h) in (<[l := c]> h, l).

(** The properties spread out of the element a reference denotes. *)
Definition obj_at (h : heap) (l : loc) : jsobj :=
  match h !! l with
  | Some (CObj o) => o
  | _ => ∅
  end.

(** The calls of the callback [x => ({ ...x, ... })], left to right. *)
Fixpoint map_alloc (f : jsobj → jsobj) (h : heap) (ls : list loc)
  : heap * list loc :=
  match ls with
  | [] => (h, [])
  | l :: rest =>
      let '(h1, l1) := alloc h (CObj (f (obj_at h l))) in
      let '(h2, ls2) := map_alloc f h1 rest in
      (h2, l1 :: ls2)
  end.

(** [arr.map(x => ({ ...x, ... }))]; calling it on a value that is not an
    array throws. *)
Definition array_map (f : jsobj → jsobj) (h : heap) (arr : loc)
  : completion (heap * loc) :=
  match h !! arr with
  | Some (CArr ls) =>
      let '(h0, arr') := alloc h (CArr []) in
      let '(h1, ls1) := map_alloc f h0 ls in
      Normal (<[arr' := CArr ls1]> h1, arr')
  | _ => Throw
  end.

(** [res] is a new array of new objects in a heap that extends [h] without
    changing any of its cells; the object at each index is the image under
    [f] of the object at that index of [ls]. *)
Definition fresh_copy (f : jsobj → jsobj) (h : heap) (ls : list loc)
    (res : completion (heap * loc)) : Prop :=
  ∃ h' arr' ls',
    res = Normal (h', arr')
    ∧ (arr' ∉ dom h)
    ∧ h' !! arr' = Some (CArr ls')
    ∧ length ls' = length ls
    ∧ NoDup ls'
    ∧ (∀ l', l' ∈ ls' → (l' ∉ dom h) ∧ l' ≠ arr')
    ∧ (∀ l c, h !! l = Some c → h' !! l = Some c)
    ∧ (∀ i l o, ls !! i = Some l → h !! l = Some (CObj o) →
         ∃ l', ls' !! i = Some l' ∧ h' !! l' = Some (CObj (f o))).

(** routes.ts 31-33. *)
Definition stripPrices (h : heap) (services : loc) : completion (heap * loc) :=
  array_map stripPrice h services.

(** The use of [stripPrices] in the service routes (routes.ts 431, 441, 453,
    510): [perms.canViewPrices ? servicesList : stripPrices(servicesList)]. *)
Definition servicesView (canViewPrices : bool) (h : heap) (servicesList : loc)
  : completion (heap * loc) :=
  if canViewPrices then Normal (h, servicesList)
  else stripPrices h servicesList.

(** The line items of the job detail (storage.ts 163-169). *)
Definition jobItemsView (canViewPrices : bool) (h : heap) (items : loc)
  : completion (heap * loc) :=
  if negb canViewPrices then array_map redactItem h items
  else Normal (h, items).

(** ** Price calculation (client/src/pages/PhotoEstimate.tsx 67-103) *)

(** [x || d] on numbers. *)
Definition float_or (x d : float) : float :=
  if float_truthy x then x else d.

(** [m[k] || d]; a missing key reads [undefined]. *)
Definition lookup_or (m : gmap string float) (k : string) (d : float) : float :=
  match m !! k with
  | Some x => float_or x d
  | None => d
  end.

Module PricingRule.
(** [basePrice] and [anchorMultiplier] hold the numbers
    [parseFloat(String(...))] yields for the stored columns. *)
Record t : Type := mk {
  basePrice : float;
  anchorMultiplier : float;
  materialMultiplier : gmap string float;
  complexityMultiplier : gmap string float
}.
End PricingRule.

(** The column defaults of [pricing_rules] (server/migrate.ts 457-458). *)
Definition MATERIAL_DEFAULTS : list (string * float) :=
  [("basic", 1.0%float); ("standard", 1.15%float); ("premium", 1.35%float)].

Definition COMPLEXITY_DEFAULTS : list (string * float) :=
  [("normal", 1.0%float); ("hard", 1.2%float)].

Definition default_materialMultiplier : gmap string float :=
  list_to_map MATERIAL_DEFAULTS.

Definition default_complexityMultiplier : gmap string float :=
  list_to_map COMPLEXITY_DEFAULTS.

Record PriceCalc : Type := mkPriceCalc {
  basePrice : float;
  anchorMult : float;
  matMult : float;
  compMult : float;
  unitPrice : float;
  totalEstimate : float;
  lowPrice : float;
  highPrice : float
}.

(** PhotoEstimate.tsx 67-82; [length] and [width] are the results of
    [parseFloat]. *)
Definition calculatedArea (length width : float) (selectedUnit : string)
  : float :=
  let l := float_or length 0 in
  let w := float_or width 0 in
  if String.eqb selectedUnit "SF" then (l * w)%float
  else if String.eqb selectedUnit "LF" then l
  else if String.eqb selectedUnit "EA" || String.eqb selectedUnit "JOB"
  then 1%float
  else if String.eqb selectedUnit "HR" then float_or l 1
  else (l * w)%float.

(** PhotoEstimate.tsx 84-103. *)
Definition priceCalc (matchingRule : option PricingRule.t)
    (materialTier complexity : string) (calculatedArea : float)
  : option PriceCalc :=
  match matchingRule with
  | None => None
  | Some rule =>
      let basePrice := float_or (PricingRule.basePrice rule) 0 in
      let anchorMult := float_or (PricingRule.anchorMultiplier rule) 1.15 in
      let matMults := PricingRule.materialMultiplier rule in
      let compMults := PricingRule.complexityMultiplier rule in
      let matMult := lookup_or matMults materialTier 1.0 in
      let compMult := lookup_or compMults complexity 1.0 in
      let unitPrice := (basePrice * anchorMult * matMult * compMult)%float in
      let totalEstimate := (unitPrice * calculatedArea)%float in
      let lowMult :=
        (lookup_or matMults "basic" 1.0
         * lookup_or compMults "normal" 1.0)%float in
      let highMult :=
        (lookup_or matMults "premium" 1.35
         * lookup_or compMults "hard" 1.2)%float in
      let lowPrice :=
        (basePrice * anchorMult * lowMult * calculatedArea)%float in
      let highPrice :=
        (basePrice * anchorMult * highMult * calculatedArea)%float in
      Some (mkPriceCalc basePrice anchorMult matMult compMult unitPrice
                        totalEstimate lowPrice highPrice)
  end.

(** *** [Number.prototype.toFixed] *)

(** The integer [n] for which [n / 10^digits - m * 2^e] is closest to zero,
    the larger one when there are two. *)
Definition scaled (m : positive) (e : Z) (digits : nat) : Z :=
  let p := (10 ^ Z.of_nat digits)%Z in
  if (0 <=? e)%Z then (Z.pos m * 2 ^ e * p)%Z
  else ((2 * (Z.pos m * p) + 2 ^ (- e)) `div` (2 * 2 ^ (- e)))%Z.

Fixpoint zeros (n : nat) : string :=
  match n with
  | O => ""
  | S k => "0" ++ zeros k
  end.

(** The digits of [n] with a decimal point before the last [digits] ones. *)
Definition fixed_digits (n : Z) (digits : nat) : string :=
  let m := pretty n in
  match digits with
  | O => m
  | S _ =>
      let k := String.length m in
      let m :=
        if decide (k ≤ digits)%nat then zeros (digits + 1 - k) ++ m else m in
      let k := String.length m in
      String.substring 0 (k - digits) m ++ "." ++
      String.substring (k - digits)%nat digits m
  end.

(** [x.toFixed(digits)] for [digits] up to 100.  At or above [1e21] the
    method prints in exponent notation, which is left out ([None]). *)
Definition toFixed (x : float) (digits : nat) : option string :=
  match Prim2SF x with
  | S754_nan => Some "NaN"
  | S754_infinity s => Some (if s then "-Infinity" else "Infinity")
  | S754_zero _ => Some (fixed_digits 0 digits)
  | S754_finite s m e =>
      let big :=
        if (0 <=? e)%Z then (10 ^ 21 <=? Z.pos m * 2 ^ e)%Z
        else (10 ^ 21 * 2 ^ (- e) <=? Z.pos m)%Z in
      if big then None
      else
        Some ((if s then "-" else "")
              ++ fixed_digits (scaled m e digits) digits)
  end.


(** ** Users, memberships and sessions (server/storage.ts, server/routes.ts) *)

Module User.
Record t : Type := mk {
  id : Z; username : string; passwordHash : string; role : string;
  globalRole : string
}.
End User.

Module SafeUser.
Record t : Type := mk {
  id : Z; username : string; role : string; globalRole : string
}.
End SafeUser.

(** storage.ts 17-20: the user without [passwordHash]. *)
Definition toSafeUser (user : User.t) : SafeUser.t :=
  SafeUser.mk (User.id user) (User.username user) (User.role user)
              (User.globalRole user).

(** An entry of [getCompanyUsers]: the membership row without its stored
    permission text, with the user name and the parsed permissions. *)
Module CompanyMember.
Record t : Type := mk {
  id : Z; companyId : Z; userId : Z; role : string; isActive : bool;
  username : string; permissions : jsobj
}.
End CompanyMember.

(** A value in a boolean context, for an optional integer. *)
Definition truthyZ (x : option Z) : bool :=
  match x with
  | Some z => negb (bool_decide (z = 0%Z))
  | None => false
  end.

Section Users.
Context {env : Env}.
Variable db : Store.
Variable users : list User.t.

(** storage.ts 428-431. *)
Definition getUserById (id : Z) : option SafeUser.t :=
  toSafeUser <$> head (filter (λ u, User.id u = id) users).

(** storage.ts 437-442: [cu?.companyId]. *)
Definition getUserCompanyId (userId : Z) : option Z :=
  CompanyUser.companyId <$>
    head (filter (λ cu, CompanyUser.userId cu = userId
                        ∧ CompanyUser.isActive cu = true)
                 (companyUsers db)).

(** storage.ts 444-449: [!!cu]. *)
Definition isUserInCompany (userId companyId : Z) : bool :=
  match head (filter (λ cu, CompanyUser.userId cu = userId
                            ∧ CompanyUser.companyId cu = companyId)
                     (companyUsers db)) with
  | Some _ => true
  | None => false
  end.

(** The body of the loops of [getCompanyUsers] and [getAllCompanyUsers]:
    a membership whose user row is missing is skipped. *)
Definition memberEntry (cu : CompanyUser.t) : option CompanyMember.t :=
  match getUserById (CompanyUser.userId cu) with
  | Some user =>
      Some (CompanyMember.mk (CompanyUser.id cu) (CompanyUser.companyId cu)
              (CompanyUser.userId cu) (CompanyUser.role cu)
              (CompanyUser.isActive cu) (SafeUser.username user)
              (parsePermissions (CompanyUser.permissions cu)))
  | None => None
  end.

(** storage.ts 649-662. *)
Definition getCompanyUsers (companyId : Z) : list CompanyMember.t :=
  omap memberEntry
    (filter (λ cu, CompanyUser.companyId cu = companyId
                   ∧ CompanyUser.isActive cu = true)
            (companyUsers db)).

(** storage.ts 664-677. *)
Definition getAllCompanyUsers (companyId : Z) : list CompanyMember.t :=
  omap memberEntry
    (filter (λ cu, CompanyUser.companyId cu = companyId) (companyUsers db)).

(** [String.prototype.toLowerCase] is a built-in. *)
Variable toLowerCase : string → string.

(** storage.ts 685-688: [allUsers.find(...)]. *)
Definition searchCompanyUserByUsername (companyId : Z) (username : string)
  : option CompanyMember.t :=
  head (filter (λ u, toLowerCase (CompanyMember.username u)
                     = toLowerCase username)
               (getAllCompanyUsers companyId)).

(** routes.ts 275-277 and 315-317: the [needsOnboarding] flag of the login
    and session answers. *)
Definition needsOnboarding (userId : Z) (role : string)
    (companyId : option Z) : bool :=
  match companyId with
  | Some c =>
      if truthyZ (Some c) then
        bool_decide (length (getAllowedSpecialtyIds db userId c role) = 0)
      else true
  | None => true
  end.
End Users.

(** *** Middleware (routes.ts 9-21, 43-61) *)

Module Session.
Record t : Type := mk {
  userId : option Z; role : option string; companyId : option Z
}.
End Session.

(** A middleware calls [next()], possibly after updating the session, or
    answers with a status and a message. *)
Inductive reply : Type :=
  | Next (session : Session.t)
  | Reject (status : Z) (message : string).

(** routes.ts 9-21. *)
Definition requireAuth (db : Store) (session : Session.t) : reply :=
  if negb (truthyZ (Session.userId session)) then
    Reject 401 "Not authenticated"
  else if negb (truthyZ (Session.companyId session)) then
    let companyId :=
      getUserCompanyId db (default 0%Z (Session.userId session)) in
    if negb (truthyZ companyId) then Reject 403 "No company assigned"
    else Next (Session.mk (Session.userId session) (Session.role session)
                          companyId)
  else Next session.

(** routes.ts 43-51. *)
Definition requireAdminOrOwner (session : Session.t) : reply :=
  if negb (truthyZ (Session.userId session)) then
    Reject 401 "Not authenticated"
  else if negb (bool_decide (Session.role session = Some "ADMIN"))
          && negb (bool_decide (Session.role session = Some "OWNER")) then
    Reject 403 "Admin or owner access required"
  else Next session.

(** routes.ts 53-61. *)
Definition requireSupport (session : Session.t) : reply :=
  if negb (truthyZ (Session.userId session)) then
    Reject 401 "Not authenticated"
  else if negb (bool_decide (Session.role session = Some "SUPPORT"))
          && negb (bool_decide (Session.role session = Some "ADMIN"))
          && negb (bool_decide (Session.role session = Some "OWNER")) then
    Reject 403 "Support access required"
  else Next session.

(** ** Updates of memberships and assignments (server/storage.ts) *)

Definition with_companyUsers (db : Store) (rows : list CompanyUser.t) : Store :=
  {| companies := companies db; companyUsers := rows;
     specialties := specialties db; userSpecialties := userSpecialties db;
     services := services db; jobs := jobs db; jobItems := jobItems db;
     jobAssignments := jobAssignments db |}.

Definition with_userSpecialties (db : Store) (rows : list UserSpecialty.t)
  : Store :=
  {| companies := companies db; companyUsers := companyUsers db;
     specialties := specialties db; userSpecialties := rows;
     services := services db; jobs := jobs db; jobItems := jobItems db;
     jobAssignments := jobAssignments db |}.

Definition with_jobAssignments (db : Store) (rows : list JobAssignment.t)
  : Store :=
  {| companies := companies db; companyUsers := companyUsers db;
     specialties := specialties db; userSpecialties := userSpecialties db;
     services := services db; jobs := jobs db; jobItems := jobItems db;
     jobAssignments := rows |}.


(** The handlers that switch a membership on or off.  Their audit rows
    go to a table that is not part of [Store]; an answer is the status and
    the message.  [isActive] is the property of that name of the request
    body, [None] when it is missing. *)
Section ActiveHandlers.
Context {env : Env}.


End ActiveHandlers.

Section PermissionUpdates.
Context {env : Env}.
(** [JSON.stringify] is a built-in. *)
Variable JSON_stringify : jsobj → string.

(** storage.ts 698-708. *)
Definition updateCompanyUserPermissions (db : Store) (companyId userId : Z)
    (permissions : jsobj) : Store :=
  match head (filter (λ cu, CompanyUser.companyId cu = companyId
                            ∧ CompanyUser.userId cu = userId)
                     (companyUsers db)) with
  | None => db
  | Some cu =>
      let existing := parsePermissions (CompanyUser.permissions cu) in
      let updated := spread existing permissions in
      with_companyUsers db
        ((λ row,
            if decide (CompanyUser.id row = CompanyUser.id cu)
            then CompanyUser.mk (CompanyUser.id row)
                   (CompanyUser.companyId row) (CompanyUser.userId row)
                   (CompanyUser.role row) (CompanyUser.isActive row)
                   (Some (JSON_stringify updated))
            else row) <$> companyUsers db)
  end.

(** storage.ts 769-779. *)
Definition updateAssignmentPermissions (db : Store) (jobId userId : Z)
    (permissions : jsobj) : Store :=
  match head (filter (λ a, JobAssignment.jobId a = jobId
                           ∧ JobAssignment.userId a = userId)
                     (jobAssignments db)) with
  | None => db
  | Some assignment =>
      let existing := parsePermissions (JobAssignment.permissions assignment) in
      let updated := spread existing permissions in
      with_jobAssignments db
        ((λ row,
            if decide (JobAssignment.id row = JobAssignment.id assignment)
            then JobAssignment.mk (JobAssignment.id row)
                   (JobAssignment.jobId row) (JobAssignment.userId row)
                   (Some (JSON_stringify updated))
            else row) <$> jobAssignments db)
  end.
End PermissionUpdates.

Section SpecialtyUpdates.
(** Whether the database accepts an [INSERT] of rows into
    [user_specialties] (primary key, foreign keys); a refused statement
    throws. *)
Variable accepts : Store → list UserSpecialty.t → bool.

(** storage.ts 318-327: a [DELETE] followed, for a non-empty list, by one
    [INSERT]; the two statements are not in a transaction. *)
Definition setUserSpecialties (db : Store) (userId companyId : Z)
    (specialtyIds : list Z) : Store * completion unit :=
  let db1 :=
    with_userSpecialties db
      (filter (λ r, ¬ (UserSpecialty.userId r = userId
                       ∧ UserSpecialty.companyId r = companyId))
              (userSpecialties db)) in
  if bool_decide (0 < length specialtyIds)%nat then
    let rows :=
      (λ specialtyId, UserSpecialty.mk companyId userId specialtyId)
        <$> specialtyIds in
    if accepts db1 rows then
      (with_userSpecialties db1 (userSpecialties db1 ++ rows), Normal ())
    else (db1, Throw)
  else (db1, Normal ()).

(** storage.ts 276-283: [tradeId] is optional. *)
Definition specialty_id_le (a b : Specialty.t) : Prop :=
  (Specialty.id a ≤ Specialty.id b)%Z.

#[global] Instance specialty_id_le_dec a b : Decision (specialty_id_le a b).
Proof. unfold specialty_id_le. apply _. Defined.

Definition getSpecialties (db : Store) (tradeId : option Z)
  : list Specialty.t :=
  if truthyZ tradeId then
    merge_sort specialty_id_le
      (filter (λ s, Some (Specialty.tradeId s) = tradeId) (specialties db))
  else merge_sort specialty_id_le (specialties db).

Context {env : Env}.
Variable users : list User.t.

(** The handler of [PUT /api/admin/users/:userId/specialties]
    (routes.ts 471-494), after its middleware: the new store and the
    answer, a status with a message or [ok].  [specialtyIds] is the property
    of that name of the request body, [None] when it is missing; the
    elements that pass the test against [validIds] are numbers equal to ids,
    and these ids are what is stored. *)
Definition putUserSpecialties (db : Store) (companyId targetUserId : Z)
    (specialtyIds : option json) : Store * completion (Z * string) :=
  match specialtyIds with
  | Some (JArr specialtyIds) =>
      let members := getCompanyUsers db users companyId in
      let isMember :=
        bool_decide
          (Exists (λ m, CompanyMember.userId m = targetUserId) members) in
      if negb isMember then (db, Normal (404%Z, "User not in your company"))
      else
        let companyTradeId := getCompanyTradeId db companyId in
        let validSpecs := getSpecialties db (Some companyTradeId) in
        let validIds := Specialty.id <$> validSpecs in
        let invalid :=
          if bool_decide (0 < length specialtyIds)%nat then
            negb (forallb (set_has validIds) specialtyIds)
          else false in
        if invalid then
          (db, Normal (400%Z, "Invalid specialty IDs for company trade"))
        else
          match setUserSpecialties db targetUserId companyId
                  (omap (set_find validIds) specialtyIds) with
          | (db', Normal _) => (db', Normal (200%Z, "ok"))
          | (db', Throw) => (db', Throw)
          end
  | _ => (db, Normal (400%Z, "specialtyIds must be an array"))
  end.
End SpecialtyUpdates.

(** ** Invite links (server/routes.ts 930-943, server/storage.ts 893-902) *)

Module InviteToken.
(** [usedAt] and [expiresAt] are timestamps in milliseconds. *)
Record t : Type := mk {
  id : Z; token : string; companyId : Z; role : string;
  expiresAt : Z; usedAt : option Z; usedBy : option Z
}.
End InviteToken.

(** storage.ts 893-896. *)
Definition getInviteToken (inviteTokens : list InviteToken.t) (token : string)
  : option InviteToken.t :=
  head (filter (λ r, InviteToken.token r = token) inviteTokens).

(** storage.ts 898-902; [now] is [new Date()]. *)
Definition markInviteTokenUsed (inviteTokens : list InviteToken.t)
    (now : Z) (token : string) (userId : Z) : list InviteToken.t :=
  (λ r,
     if decide (InviteToken.token r = token)
     then InviteToken.mk (InviteToken.id r) (InviteToken.token r)
            (InviteToken.companyId r) (InviteToken.role r)
            (InviteToken.expiresAt r) (Some now) (Some userId)
     else r) <$> inviteTokens.

(** The checks shared by [GET /api/invite/validate/:token] and
    [POST /api/invite/signup/:token] (routes.ts 931-940, 952-961): the
    invite to go on with, or the status and message of the refusal. *)
Definition checkInvite (inviteTokens : list InviteToken.t) (now : Z)
    (token : string) : InviteToken.t + (Z * string) :=
  match getInviteToken inviteTokens token with
  | None => inr (404%Z, "Invalid invite link")
  | Some invite =>
      if bool_decide (is_Some (InviteToken.usedAt invite)) then
        inr (410%Z, "This invite link has already been used")
      else if bool_decide (InviteToken.expiresAt invite < now)%Z then
        inr (410%Z, "This invite link has expired")
      else inl invite
  end.

(** ** Example data

    One carpentry company (trade 1) with four specialties, an owner (10), an
    admin (11), an employee (12) assigned to specialties 1 and 2 and to job
    103, and a support account (13). *)

Definition dquote : string := String (Ascii.ascii_of_nat 34) "".

(** The text [{"canViewPrices":true}]. *)
Definition text_viewPrices : string :=
  "{" ++ dquote ++ "canViewPrices" ++ dquote ++ ":true}".

(** [JSON.parse] on the texts of the example data. *)
Definition parse_examples (s : string) : completion json :=
  if String.eqb s text_viewPrices then
    Normal (JObj [("canViewPrices", JBool true)])
  else if String.eqb s "{}" then Normal (JObj [])
  else if String.eqb s "null" then Normal JNull
  else if String.eqb s "[true]" then Normal (JArr [JBool true])
  else Throw.

Definition example_env : Env :=
  {| JSON_parse := parse_examples; DEFAULT_EMPLOYEE_PERMISSIONS := AllFalse |}.

Definition example_item (price total : string) : jsobj :=
  <["unitPrice" := JStr price]> (<["lineTotal" := JStr total]>
  (<["serviceName" := JStr "Stair tread"]> ∅)).

Definition example_db : Store :=
  {| companies := [Company.mk 1 1];
     companyUsers :=
       [CompanyUser.mk 1 1 10 "OWNER" true None;
        CompanyUser.mk 2 1 11 "ADMIN" true (Some "{}");
        CompanyUser.mk 3 1 12 "USER" true (Some text_viewPrices);
        CompanyUser.mk 4 1 13 "SUPPORT" true None];
     specialties :=
       [Specialty.mk 1 1 "stairs" "Stairs"; Specialty.mk 2 1 "deck" "Deck";
        Specialty.mk 3 1 "doors" "Doors"; Specialty.mk 4 1 "windows" "Windows";
        Specialty.mk 5 2 "general" "Painting"];
     userSpecialties :=
       [UserSpecialty.mk 1 12 1; UserSpecialty.mk 1 12 2];
     services :=
       [Service.mk 1 1 1 true "Stair tread" "EA" "120.00";
        Service.mk 2 1 3 true "Interior door" "EA" "180.00"];
     jobs :=
       [Job.mk 101 1 (Some 1%Z) "DRAFT" (Some 1%Z);
        Job.mk 102 1 (Some 2%Z) "SCHEDULED" (Some 2%Z);
        Job.mk 103 1 (Some 3%Z) "SENT" (Some 3%Z);
        Job.mk 104 1 (Some 4%Z) "DONE" (Some 4%Z);
        Job.mk 105 1 None "APPROVED" (Some 5%Z)];
     jobItems :=
       [JobItem.mk 103 (example_item "120.00" "240.00");
        JobItem.mk 101 (example_item "95.00" "95.00")];
     jobAssignments := [JobAssignment.mk 1 103 12 (Some "{}")] |}.

(** A heap holding a two-element service list at reference 3. *)
Definition example_heap : heap :=
  <[1%positive := CObj (example_item "120.00" "240.00")]>
  (<[2%positive := CObj (example_item "95.00" "95.00")]>
  (<[3%positive := CArr [1%positive; 2%positive]]> ∅)).

Definition example_rule : PricingRule.t :=
  PricingRule.mk 100 1.15 default_materialMultiplier
                 default_complexityMultiplier.

(** *** More example data *)

(** ASCII lower-casing, which is what [toLowerCase] does on ASCII text. *)
Definition ascii_lower (c : Ascii.ascii) : Ascii.ascii :=
  let n := Ascii.nat_of_ascii c in
  if bool_decide (65 ≤ n ≤ 90)%nat then Ascii.ascii_of_nat (n + 32) else c.

Fixpoint lower (s : string) : string :=
  match s with
  | EmptyString => EmptyString
  | String c rest => String (ascii_lower c) (lower rest)
  end.

Definition example_users : list User.t :=
  [User.mk 10 "mateus" "hash10" "OWNER" "support_admin";
   User.mk 11 "admin" "hash11" "ADMIN" "support_admin";
   User.mk 12 "user" "hash12" "USER" "user";
   User.mk 13 "helpdesk" "hash13" "SUPPORT" "user";
   User.mk 14 "Carlos" "hash14" "USER" "user"].

(** The example company with a second employee (14) whose company
    permissions are the baseline while the assignment to job 101 grants
    [canViewPrices], and an inactive membership (15) without a user row. *)
Definition example_db2 : Store :=
  with_jobAssignments
    (with_companyUsers example_db
       (companyUsers example_db
        ++ [CompanyUser.mk 5 1 14 "USER" true (Some "{}");
            CompanyUser.mk 6 1 15 "USER" false None]))
    (jobAssignments example_db
     ++ [JobAssignment.mk 2 101 14 (Some text_viewPrices)]).

(** The database of the examples accepts rows that are pairwise distinct
    and name a specialty that exists. *)
Definition example_accepts (db : Store) (rows : list UserSpecialty.t) : bool :=
  bool_decide (NoDup (UserSpecialty.specialtyId <$> rows))
  && bool_decide (Forall (λ r, UserSpecialty.specialtyId r
                               ∈ Specialty.id <$> specialties db) rows).

Definition example_tokens : list InviteToken.t :=
  [InviteToken.mk 1 "abc123" 1 "USER" 1000 None None;
   InviteToken.mk 2 "def456" 1 "ADMIN" 1000 (Some 500%Z) (Some 12%Z)].

(** [JSON.stringify] and [JSON.parse] on objects of five boolean flags, as
    the permission updates store and read them. *)
Definition bool_text (b : bool) : string := if b then "true" else "false".

Definition member_text (k : string) (b : bool) : string :=
  dquote ++ k ++ dquote ++ ":" ++ bool_text b.

Definition perms_text (p : Permissions) : string :=
  "{" ++ member_text "canManageUsers" (canManageUsers p) ++ ","
      ++ member_text "canViewAllSpecialties" (canViewAllSpecialties p) ++ ","
      ++ member_text "canViewPrices" (canViewPrices p) ++ ","
      ++ member_text "canEditPrices" (canEditPrices p) ++ ","
      ++ member_text "canAudit" (canAudit p) ++ "}".

Definition perms_members (p : Permissions) : list (string * json) :=
  [("canManageUsers", JBool (canManageUsers p));
   ("canViewAllSpecialties", JBool (canViewAllSpecialties p));
   ("canViewPrices", JBool (canViewPrices p));
   ("canEditPrices", JBool (canEditPrices p));
   ("canAudit", JBool (canAudit p))].

Definition all_perms : list Permissions :=
  a ← [false; true]; b ← [false; true]; c ← [false; true];
  d ← [false; true]; e ← [false; true]; [mkPermissions a b c d e].

Definition parse_perms (s : string) : completion json :=
  match list_find (λ p, perms_text p = s) all_perms with
  | Some (_, p) => Normal (JObj (perms_members p))
  | None => parse_examples s
  end.

Definition stringify_perms (o : jsobj) : string := perms_text (perms_of_obj o).

Definition example_env2 : Env :=
  {| JSON_parse := parse_perms; DEFAULT_EMPLOYEE_PERMISSIONS := AllFalse |}.

(** A painting company (7) of trade 2, whose id differs from its trade:
    an owner (20), an admin (21) with [canViewAllSpecialties], an admin
    (22) without it who is assigned specialty 6, and an employee (23)
    assigned specialty 5. *)
Definition example_db3 : Store :=
  {| companies := [Company.mk 1 1; Company.mk 7 2];
     companyUsers :=
       [CompanyUser.mk 1 7 20 "OWNER" true None;
        CompanyUser.mk 2 7 21 "ADMIN" true
          (Some (perms_text (mkPermissions false true false false false)));
        CompanyUser.mk 3 7 22 "ADMIN" true (Some "{}");
        CompanyUser.mk 4 7 23 "USER" true None];
     specialties :=
       [Specialty.mk 1 1 "stairs" "Stairs";
        Specialty.mk 5 2 "interior" "Interior painting";
        Specialty.mk 6 2 "exterior" "Exterior painting";
        Specialty.mk 7 7 "tile" "Tile"];
     userSpecialties :=
       [UserSpecialty.mk 7 22 6; UserSpecialty.mk 7 23 5];
     services := []; jobs := []; jobItems := []; jobAssignments := [] |}.

(** * Properties *)

(** ** Permission capping *)

Ltac perms_le_solve :=
  unfold perms_le; simpl; rewrite ?andb_True; tauto.

Lemma capPermissions_le_job P C : perms_le (capPermissions P C) P.
Proof. perms_le_solve. Qed.

Lemma capPermissions_le_company P C : perms_le (capPermissions P C) C.
Proof. perms_le_solve. Qed.

Lemma capPermissions_mono P P' C C' :
  perms_le P P' → perms_le C C' →
  perms_le (capPermissions P C) (capPermissions P' C').
Proof. perms_le_solve. Qed.

Lemma capPermissions_AllTrue P : capPermissions P AllTrue = P.
Proof. destruct P; unfold capPermissions; simpl; by rewrite !andb_true_r. Qed.

Lemma capPermissions_AllFalse P : capPermissions P AllFalse = AllFalse.
Proof. unfold capPermissions, AllFalse; simpl; by rewrite !andb_false_r. Qed.

Lemma capPermissions_idem P C :
  capPermissions (capPermissions P C) C = capPermissions P C.
Proof.
  unfold capPermissions; simpl.
  by rewrite <- !andb_assoc, !andb_diag.
Qed.

(** The order is preserved, not reversed: raising a grant can raise the
    result. *)
Remark capPermissions_not_antitone :
  perms_le AllFalse AllTrue
  ∧ ¬ perms_le (capPermissions AllTrue AllTrue)
               (capPermissions AllFalse AllTrue).
Proof. split; [perms_le_solve | unfold perms_le; simpl; tauto]. Qed.

(** C1. For all five-flag records [P] (job level) and [C] (company ceiling),
    every flag of [capPermissions P C] is the conjunction of the same flags
    of [P] and [C].  Hence the result never exceeds either argument, the
    function is monotone in both arguments for the pointwise boolean order,
    capping by the all-true record returns [P], capping by the all-false
    record returns the all-false record, and capping twice by the same
    ceiling is the same as capping once. *)
Theorem capPermissions_meet (P C : Permissions) :
  (canManageUsers (capPermissions P C) = canManageUsers P && canManageUsers C
   ∧ canViewAllSpecialties (capPermissions P C)
     = canViewAllSpecialties P && canViewAllSpecialties C
   ∧ canViewPrices (capPermissions P C) = canViewPrices P && canViewPrices C
   ∧ canEditPrices (capPermissions P C) = canEditPrices P && canEditPrices C
   ∧ canAudit (capPermissions P C) = canAudit P && canAudit C)
  ∧ perms_le (capPermissions P C) P
  ∧ perms_le (capPermissions P C) C
  ∧ (∀ P' C', perms_le P P' → perms_le C C' →
       perms_le (capPermissions P C) (capPermissions P' C'))
  ∧ capPermissions P AllTrue = P
  ∧ capPermissions P AllFalse = AllFalse
  ∧ capPermissions (capPermissions P C) C = capPermissions P C.
Proof.
  split; [by repeat split |].
  split; [apply capPermissions_le_job |].
  split; [apply capPermissions_le_company |].
  split; [intros P' C'; apply capPermissions_mono |].
  split; [apply capPermissions_AllTrue |].
  split; [apply capPermissions_AllFalse | apply capPermissions_idem].
Qed.

(** Raising a job-level grant under a fixed ceiling: the capped result grows
    with it and stays under the ceiling. *)
Lemma capPermissions_meet_witness :
  perms_le (capPermissions (mkPermissions false false true false false)
                           (mkPermissions true false true true false))
           (capPermissions AllTrue (mkPermissions true false true true false)).
Proof.
  apply (capPermissions_meet (mkPermissions false false true false false)
                             (mkPermissions true false true true false));
    unfold perms_le; simpl; tauto.
Defined.

(** ** Permission parsing *)

Lemma perms_obj_lookup_key p k :
  k ∈ permission_keys → is_Some (perms_obj p !! k).
Proof.
  unfold permission_keys. rewrite !elem_of_cons, elem_of_nil.
  intros [->|[->|[->|[->|[->|[]]]]]]; unfold perms_obj; simplify_map_eq; eauto.
Qed.

Lemma spread_empty (o : jsobj) : spread ∅ o = o.
Proof. unfold spread. apply (right_id_L ∅ (∪)). Qed.

Lemma spread_lookup (a b : jsobj) k :
  spread a b !! k = match b !! k with Some v => Some v | None => a !! k end.
Proof.
  unfold spread. rewrite lookup_union.
  destruct (b !! k), (a !! k); reflexivity.
Qed.

Lemma members_to_obj_snoc members k v :
  members_to_obj (members ++ [(k, v)]) = <[k := v]> (members_to_obj members).
Proof. unfold members_to_obj. by rewrite foldl_app. Qed.

Lemma members_to_obj_absent members k :
  members_to_obj members !! k = None ↔ k ∉ members.*1.
Proof.
  induction members as [|[k' v'] members IH] using rev_ind.
  - unfold members_to_obj; simpl. rewrite lookup_empty. set_solver.
  - rewrite members_to_obj_snoc, fmap_app, elem_of_app. simpl.
    rewrite list_elem_of_singleton.
    destruct (decide (k' = k)) as [->|Hne].
    + rewrite lookup_insert_eq.
      split; [done | intros H; exfalso; apply H; by right].
    + rewrite lookup_insert_ne by done. rewrite IH. split.
      * intros H [?|?]; [done | congruence].
      * intros H ?; apply H; by left.
Qed.

Section ParsingProps.
Context {env : Env}.

Local Abbreviation baseline := (perms_obj DEFAULT_EMPLOYEE_PERMISSIONS).

Lemma parsePermissions_null : parsePermissions None = baseline.
Proof. unfold parsePermissions; simpl. apply spread_empty. Qed.

Lemma parsePermissions_empty : parsePermissions (Some "") = baseline.
Proof. unfold parsePermissions; simpl. apply spread_empty. Qed.

Lemma parsePermissions_invalid s :
  JSON_parse s = Throw → parsePermissions (Some s) = baseline.
Proof.
  intros Hthrow. unfold parsePermissions, parsePermissions_try.
  destruct (String.eqb s ""); [apply spread_empty |].
  rewrite Hthrow. apply spread_empty.
Qed.

Lemma parsePermissions_valid s parsed :
  s ≠ "" → JSON_parse s = Normal parsed →
  parsePermissions (Some s) = spread baseline (own_props parsed).
Proof.
  intros Hne Hparse. unfold parsePermissions, parsePermissions_try.
  destruct (String.eqb_spec s ""); [done |].
  by rewrite Hparse.
Qed.

(** Whatever the input, the result is the baseline or a spread over it. *)
Lemma parsePermissions_cases raw :
  parsePermissions raw = baseline
  ∨ ∃ props, parsePermissions raw = spread baseline props.
Proof.
  destruct raw as [s|]; [| left; apply parsePermissions_null].
  destruct (decide (s = "")) as [->|Hne];
    [left; apply parsePermissions_empty |].
  destruct (JSON_parse s) as [parsed|] eqn:Hparse.
  - right. exists (own_props parsed). by apply parsePermissions_valid.
  - left. by apply parsePermissions_invalid.
Qed.

Lemma parsePermissions_has_key raw k :
  k ∈ permission_keys → is_Some (parsePermissions raw !! k).
Proof.
  intros Hk.
  pose proof (perms_obj_lookup_key DEFAULT_EMPLOYEE_PERMISSIONS k Hk) as [v Hv].
  destruct (parsePermissions_cases raw) as [-> | [props ->]]; [eauto |].
  rewrite spread_lookup, Hv. destruct (props !! k); eauto.
Qed.

(** C10. [parsePermissions] returns an object for every string-or-null
    input: its value is the result of the [try] block, or the baseline when
    that block throws.  A null or empty input and a text [JSON.parse]
    rejects give the default employee baseline; a text that parses to an
    object is merged over the baseline, so each of the five flags is
    present, a flag absent from the input has its baseline value and a
    flag present in the input has the input's value. *)
Theorem parsePermissions_total (raw : option string) :
  (match parsePermissions_try raw with
   | Normal o => parsePermissions raw = o
   | Throw => parsePermissions raw = perms_obj DEFAULT_EMPLOYEE_PERMISSIONS
   end)
  ∧ (∀ k, k ∈ permission_keys → is_Some (parsePermissions raw !! k))
  ∧ (raw = None ∨ raw = Some "" →
     parsePermissions raw = perms_obj DEFAULT_EMPLOYEE_PERMISSIONS)
  ∧ (∀ s, raw = Some s → JSON_parse s = Throw →
       parsePermissions raw = perms_obj DEFAULT_EMPLOYEE_PERMISSIONS)
  ∧ (∀ s members, raw = Some s → s ≠ "" →
       JSON_parse s = Normal (JObj members) →
       ∀ k, (k ∉ members.*1 →
               parsePermissions raw !! k
               = perms_obj DEFAULT_EMPLOYEE_PERMISSIONS !! k)
            ∧ (k ∈ members.*1 →
                 is_Some (members_to_obj members !! k)
                 ∧ parsePermissions raw !! k = members_to_obj members !! k)).
Proof.
  split.
  { unfold parsePermissions.
    destruct (parsePermissions_try raw); [done | apply spread_empty]. }
  split; [intros k; apply parsePermissions_has_key |].
  split.
  { intros [-> | ->];
      [apply parsePermissions_null | apply parsePermissions_empty]. }
  split; [intros s -> Hthrow; by apply parsePermissions_invalid |].
  intros s members -> Hne Hparse k.
  rewrite (parsePermissions_valid s _ Hne Hparse), spread_lookup. simpl.
  split.
  - intros Habs. apply members_to_obj_absent in Habs. by rewrite Habs.
  - intros Hin.
    destruct (members_to_obj members !! k) as [v|] eqn:Hv; [eauto |].
    apply members_to_obj_absent in Hv. done.
Qed.
End ParsingProps.

(** The stored text [{"canViewPrices":true}] over an all-false baseline:
    [canAudit] keeps its baseline value. *)
Lemma parsePermissions_total_witness :
  parsePermissions (env := example_env) (Some text_viewPrices) !! "canAudit"
  = perms_obj AllFalse !! "canAudit".
Proof.
  refine (proj1 (proj2 (proj2 (proj2 (proj2
    (parsePermissions_total (env := example_env) (Some text_viewPrices)))))
    text_viewPrices [("canViewPrices", JBool true)] eq_refl _ eq_refl
    "canAudit") _).
  - vm_compute. discriminate.
  - simpl. rewrite list_elem_of_singleton. discriminate.
Defined.

(** ** Lists, sorting and counting *)

Lemma elem_of_companyJobs db companyId (j : Job.t) :
  j ∈ companyJobs db companyId ↔ j ∈ jobs db ∧ Job.companyId j = companyId.
Proof.
  unfold companyJobs.
  rewrite (merge_sort_Permutation createdAt_le), list_elem_of_filter.
  tauto.
Qed.

Lemma includes_spec (arr : list Z) (x : Z) : includes arr x = true ↔ x ∈ arr.
Proof. unfold includes. apply bool_decide_eq_true. Qed.

Lemma length_zero_nil {A} (l : list A) :
  bool_decide (length l = 0) = true ↔ l = [].
Proof. rewrite bool_decide_eq_true. apply length_zero_iff_nil. Qed.

Lemma jobVisible_spec jobIds userSpecIds (j : Job.t) :
  jobVisible jobIds userSpecIds j = true ↔
  Job.id j ∈ jobIds
  ∨ ∃ s, Job.specialtyId j = Some s ∧ s ≠ 0%Z ∧ s ∈ userSpecIds.
Proof.
  unfold jobVisible. rewrite orb_true_iff, includes_spec.
  destruct (Job.specialtyId j) as [s|].
  - rewrite andb_true_iff, negb_true_iff, bool_decide_eq_false, includes_spec.
    split; (intros [?|H]; [by left | right]).
    + exists s. tauto.
    + destruct H as (s' & [= <-] & ? & ?). tauto.
  - split; (intros [?|H]; [by left |]); [done |].
    by destruct H as (s' & ? & _).
Qed.

Lemma assigned_jobIds_spec (assignments : list JobAssignment.t) userId x :
  x ∈ JobAssignment.jobId <$>
        filter (λ a, JobAssignment.userId a = userId) assignments
  ↔ ∃ a, a ∈ assignments ∧ JobAssignment.jobId a = x
         ∧ JobAssignment.userId a = userId.
Proof.
  rewrite list_elem_of_fmap. split.
  - intros (a & -> & Ha). apply list_elem_of_filter in Ha as [Hu Ha]. eauto.
  - intros (a & Ha & <- & Hu). exists a. split; [done |].
    apply list_elem_of_filter. done.
Qed.

(** ** Visibility rules *)

Section StorageProps.
Context {env : Env}.
Variable db : Store.

(** C2. For role SUPPORT, whatever the user, the company and the stored
    assignments and permissions: the allowed specialties are empty, the job
    list is empty with every counter zero, and the service list is empty. *)
Theorem support_sees_nothing (userId companyId : Z) (specialtyId : option Z) :
  getAllowedSpecialtyIds db userId companyId "SUPPORT" = []
  ∧ getJobs db userId "SUPPORT" companyId
    = mkJobsListResponse [] (mkStats 0 0 0 0 0 0)
  ∧ getServices db companyId userId "SUPPORT" specialtyId = [].
Proof. by repeat split. Qed.

Lemma allowed_owner userId companyId :
  getAllowedSpecialtyIds db userId companyId "OWNER"
  = tradeSpecialtyIds db (getCompanyTradeId db companyId).
Proof. reflexivity. Qed.

Lemma allowed_admin userId companyId :
  getAllowedSpecialtyIds db userId companyId "ADMIN"
  = if flag (getCompanyUserPermissions db companyId userId)
            "canViewAllSpecialties"
    then tradeSpecialtyIds db (getCompanyTradeId db companyId)
    else assignedSpecialtyIds db userId companyId.
Proof. reflexivity. Qed.

Lemma allowed_other userId companyId role :
  role ≠ "SUPPORT" → role ≠ "OWNER" → role ≠ "ADMIN" →
  getAllowedSpecialtyIds db userId companyId role
  = assignedSpecialtyIds db userId companyId.
Proof.
  intros Hs Ho Ha. unfold getAllowedSpecialtyIds.
  destruct (String.eqb_spec role "SUPPORT"); [done |].
  destruct (String.eqb_spec role "OWNER"); [done |].
  destruct (String.eqb_spec role "ADMIN"); [done |].
  reflexivity.
Qed.

Lemma elem_of_tradeSpecialtyIds tradeId x :
  x ∈ tradeSpecialtyIds db tradeId
  ↔ ∃ s, s ∈ specialties db ∧ Specialty.id s = x
         ∧ Specialty.tradeId s = tradeId.
Proof.
  unfold tradeSpecialtyIds. rewrite list_elem_of_fmap. split.
  - intros (s & -> & Hs). apply list_elem_of_filter in Hs as [Ht Hs]. eauto.
  - intros (s & Hs & <- & Ht). exists s. split; [done |].
    by apply list_elem_of_filter.
Qed.

Lemma elem_of_assignedSpecialtyIds userId companyId x :
  x ∈ assignedSpecialtyIds db userId companyId
  ↔ ∃ r, r ∈ userSpecialties db ∧ UserSpecialty.specialtyId r = x
         ∧ UserSpecialty.userId r = userId
         ∧ UserSpecialty.companyId r = companyId.
Proof.
  unfold assignedSpecialtyIds. rewrite list_elem_of_fmap. split.
  - intros (r & -> & Hr).
    apply list_elem_of_filter in Hr as [[Hu Hc] Hr]. eauto.
  - intros (r & Hr & <- & Hu & Hc). exists r. split; [done |].
    by apply list_elem_of_filter.
Qed.

Lemma filter_none {A} (P : A → Prop) `{∀ x, Decision (P x)} (l : list A) :
  (∀ x, x ∈ l → ¬ P x) → filter P l = [].
Proof.
  intros Hnone. destruct (filter P l) as [|x t] eqn:Hf; [done |].
  assert (x ∈ filter P l) as Hx by (rewrite Hf; left).
  apply list_elem_of_filter in Hx as [HP Hx]. by destruct (Hnone x Hx).
Qed.

Lemma jobs_copy_id (f : Job.t → Job.t) (l : list Job.t) :
  (∀ j, f j = j) → f <$> l = l.
Proof.
  intros Hf. induction l as [|j l IH]; [done |].
  by rewrite fmap_cons, Hf, IH.
Qed.

(** The job list of a caller who is not SUPPORT, OWNER or ADMIN is the
    company's jobs filtered by assignment or specialty. *)
Lemma visibleJobs_other_items userId role companyId :
  role ≠ "SUPPORT" → role ≠ "OWNER" → role ≠ "ADMIN" →
  items (getJobs db userId role companyId)
  = filter (λ j, jobVisible
                   (JobAssignment.jobId <$>
                      filter (λ a, JobAssignment.userId a = userId)
                             (jobAssignments db))
                   (getAllowedSpecialtyIds db userId companyId role) j)
           (companyJobs db companyId).
Proof.
  intros Hs Ho Ha. unfold getJobs.
  destruct (String.eqb_spec role "SUPPORT"); [done |].
  destruct (String.eqb_spec role "OWNER"); [done |].
  destruct (String.eqb_spec role "ADMIN"); [done |].
  cbv zeta. simpl orb. cbv iota.
  set (jobIds := JobAssignment.jobId <$> _).
  set (userSpecIds := getAllowedSpecialtyIds db userId companyId role).
  destruct (bool_decide (length jobIds = 0)) eqn:Hj; simpl andb;
    [destruct (bool_decide (length userSpecIds = 0)) eqn:Hu |]; simpl.
  - apply length_zero_nil in Hj, Hu. rewrite Hj, Hu.
    symmetry. apply filter_none. intros j _ Hvis.
    apply Is_true_true, jobVisible_spec in Hvis.
    destruct Hvis as [Hin | (s & _ & _ & Hin)]; by apply elem_of_nil in Hin.
  - by apply jobs_copy_id.
  - by apply jobs_copy_id.
Qed.

(** C4. OWNER and ADMIN get every job of the company, unfiltered.  USER
    gets exactly the jobs of the company that have a job-assignment record
    for this user or whose specialty is in the user's allowed-specialty set:
    a job outside the set is included when directly assigned and excluded
    otherwise.  Specialty ids are database serial keys, hence never 0. *)
Theorem visible_jobs_by_role (userId companyId : Z) :
  (∀ role, role = "OWNER" ∨ role = "ADMIN" →
     items (getJobs db userId role companyId) = companyJobs db companyId
     ∧ items (getJobs db userId role companyId)
       ≡ₚ filter (λ j, Job.companyId j = companyId) (jobs db)
     ∧ ∀ j, j ∈ items (getJobs db userId role companyId)
            ↔ j ∈ jobs db ∧ Job.companyId j = companyId)
  ∧ ((∀ j, j ∈ jobs db → Job.specialtyId j ≠ Some 0%Z) →
     ∀ j, j ∈ items (getJobs db userId "USER" companyId)
          ↔ (j ∈ jobs db ∧ Job.companyId j = companyId)
            ∧ ((∃ a, a ∈ jobAssignments db
                     ∧ JobAssignment.jobId a = Job.id j
                     ∧ JobAssignment.userId a = userId)
               ∨ (∃ s, Job.specialtyId j = Some s
                     ∧ s ∈ getAllowedSpecialtyIds db userId companyId "USER"))).
Proof.
  split.
  - intros role Hrole.
    assert (items (getJobs db userId role companyId) = companyJobs db companyId)
      as Heq by (by destruct Hrole as [-> | ->]).
    rewrite Heq. split; [done |]. split.
    + apply merge_sort_Permutation.
    + apply elem_of_companyJobs.
  - intros Hserial j.
    rewrite visibleJobs_other_items by done.
    rewrite list_elem_of_filter, elem_of_companyJobs.
    rewrite Is_true_true, jobVisible_spec, assigned_jobIds_spec.
    split.
    + intros [Hvis [Hj Hc]]. split; [done |].
      destruct Hvis as [Ha | (s & Hs & _ & Hin)]; [by left | right; eauto].
    + intros [[Hj Hc] Hvis]. split; [| done].
      destruct Hvis as [Ha | (s & Hs & Hin)]; [by left | right].
      exists s. repeat split; [done | | done].
      intros ->. by apply (Hserial j).
Qed.

Lemma visibleJobs_stats userId role companyId :
  stats (getJobs db userId role companyId)
  = jobStats (items (getJobs db userId role companyId)).
Proof.
  unfold getJobs.
  destruct (String.eqb role "SUPPORT"); [done |].
  destruct (String.eqb role "OWNER" || String.eqb role "ADMIN"); [done |].
  cbv zeta.
  destruct (bool_decide _ && bool_decide _); done.
Qed.

Lemma countStatus_cons s (j : Job.t) l :
  countStatus s (j :: l)
  = (if decide (Job.status j = s) then 1 else 0) + countStatus s l.
Proof.
  unfold countStatus. rewrite filter_cons.
  destruct (decide (Job.status j = s)); reflexivity.
Qed.

(** Over jobs whose status is one of the six, the five counted statuses and
    SCHEDULED partition the list. *)
Lemma countStatus_partition (l : list Job.t) :
  (∀ j, j ∈ l → Job.status j ∈ JOB_STATUSES) →
  countStatus "DRAFT" l + countStatus "SENT" l + countStatus "APPROVED" l
  + countStatus "IN_PROGRESS" l + countStatus "DONE" l
  + countStatus "SCHEDULED" l = length l.
Proof.
  induction l as [|j l IH]; intros Hall; [reflexivity |].
  assert (Job.status j ∈ JOB_STATUSES) as Hj by (apply Hall; left).
  specialize (IH (λ j' Hj', Hall j' (list_elem_of_further _ _ _ Hj'))).
  rewrite !countStatus_cons. simpl length.
  unfold JOB_STATUSES in Hj. rewrite !elem_of_cons, elem_of_nil in Hj.
  destruct Hj as [Hj|[Hj|[Hj|[Hj|[Hj|[Hj|[]]]]]]]; rewrite Hj;
    repeat case_decide; try congruence; lia.
Qed.

(** C7 (as the code has it). The stats returned with a job list are counts
    over that list: [total] is its length and each of the five counters
    [drafts], [sent], [approved], [inProgress], [done] is the number of
    returned jobs with that status.  There is no counter for SCHEDULED: when
    every status is one of the six, the five counters add up to [total]
    minus the number of SCHEDULED jobs. *)
Theorem job_stats_reduction (userId companyId : Z) (role : string) :
  let r := getJobs db userId role companyId in
  total (stats r) = length (items r)
  ∧ drafts (stats r) = countStatus "DRAFT" (items r)
  ∧ sent (stats r) = countStatus "SENT" (items r)
  ∧ approved (stats r) = countStatus "APPROVED" (items r)
  ∧ inProgress (stats r) = countStatus "IN_PROGRESS" (items r)
  ∧ done (stats r) = countStatus "DONE" (items r)
  ∧ ((∀ j, j ∈ items r → Job.status j ∈ JOB_STATUSES) →
     drafts (stats r) + sent (stats r) + approved (stats r)
     + inProgress (stats r) + done (stats r)
     + countStatus "SCHEDULED" (items r) = total (stats r)).
Proof.
  intros r. subst r. rewrite visibleJobs_stats. simpl.
  repeat (split; [reflexivity |]).
  apply countStatus_partition.
Qed.

Lemma head_filter_None {A} (P : A → Prop) `{∀ x, Decision (P x)} (l : list A) :
  (∀ x, x ∈ l → ¬ P x) → head (filter P l) = None.
Proof. intros Hnone. by rewrite filter_none. Qed.

Lemma head_filter_elem {A} (P : A → Prop) `{∀ x, Decision (P x)}
    (l : list A) x :
  head (filter P l) = Some x → x ∈ l ∧ P x.
Proof.
  intros Hhead.
  assert (x ∈ filter P l) as Hx.
  { destruct (filter P l); simplify_eq/=. left. }
  apply list_elem_of_filter in Hx. tauto.
Qed.

Lemma head_filter_is_Some {A} (P : A → Prop) `{∀ x, Decision (P x)}
    (l : list A) x :
  x ∈ l → P x → is_Some (head (filter P l)).
Proof.
  intros Hx HP.
  assert (x ∈ filter P l) as Hin by (by apply list_elem_of_filter).
  destruct (filter P l); [by apply elem_of_nil in Hin | by eexists].
Qed.

(** The first row selected by a key that identifies at most one row. *)
Lemma head_filter_unique {A} (P : A → Prop) `{∀ x, Decision (P x)}
    (l : list A) x :
  x ∈ l → P x → (∀ y, y ∈ l → P y → y = x) → head (filter P l) = Some x.
Proof.
  intros Hx HP Huniq.
  destruct (head_filter_is_Some P l x Hx HP) as [y Hy].
  rewrite Hy. f_equal.
  apply head_filter_elem in Hy as [Hin HPy]. by apply Huniq.
Qed.

(** The trade resolved for a company is the [tradeId] of its row. *)
Lemma getCompanyTradeId_row companyId co :
  co ∈ companies db → Company.id co = companyId →
  (∀ co', co' ∈ companies db → Company.id co' = companyId → co' = co) →
  getCompanyTradeId db companyId = Company.tradeId co.
Proof.
  intros Hin Hid Huniq. unfold getCompanyTradeId.
  rewrite (head_filter_unique _ _ co) by done.
  unfold number_or. by case_decide.
Qed.

(** The company permissions of a member are parsed from the membership
    row. *)
Lemma getCompanyUserPermissions_row companyId userId cu :
  cu ∈ companyUsers db →
  CompanyUser.companyId cu = companyId → CompanyUser.userId cu = userId →
  (∀ cu', cu' ∈ companyUsers db →
          CompanyUser.companyId cu' = companyId ∧ CompanyUser.userId cu' = userId →
          cu' = cu) →
  getCompanyUserPermissions db companyId userId
  = parsePermissions (CompanyUser.permissions cu).
Proof.
  intros Hin Hc Hu Huniq. unfold getCompanyUserPermissions.
  by rewrite (head_filter_unique _ _ cu).
Qed.

(** C3. For a role other than SUPPORT, in terms of the tables.  Let [co] be
    the row of the company (ids are keys) and [cu] the membership row of
    (company, user) (unique by the index [company_users_unique]).  OWNER
    gets the ids of the specialties whose trade is [co]'s trade, whatever
    the explicit assignments; ADMIN gets them too when the permissions
    parsed from [cu] have [canViewAllSpecialties]; ADMIN without the flag
    (in the row, or in the baseline when there is no row), and USER, get
    exactly the specialty ids of the [user_specialties] rows of
    (user, company), which may be none. *)
Theorem allowed_specialties_resolution (userId companyId : Z) (role : string) :
  role ≠ "SUPPORT" →
  let allowed := getAllowedSpecialtyIds db userId companyId role in
  let ofTrade (co : Company.t) :=
    Specialty.id <$>
      filter (λ s, Specialty.tradeId s = Company.tradeId co)
             (specialties db) in
  let assigned :=
    UserSpecialty.specialtyId <$>
      filter (λ r, UserSpecialty.userId r = userId
                   ∧ UserSpecialty.companyId r = companyId)
             (userSpecialties db) in
  let company (co : Company.t) :=
    co ∈ companies db ∧ Company.id co = companyId
    ∧ ∀ co', co' ∈ companies db → Company.id co' = companyId → co' = co in
  let membership (cu : CompanyUser.t) :=
    cu ∈ companyUsers db
    ∧ CompanyUser.companyId cu = companyId ∧ CompanyUser.userId cu = userId
    ∧ ∀ cu', cu' ∈ companyUsers db →
             CompanyUser.companyId cu' = companyId
             ∧ CompanyUser.userId cu' = userId →
             cu' = cu in
  (role = "OWNER" → ∀ co, company co → allowed = ofTrade co)
  ∧ (role = "ADMIN" →
     ∀ co cu, company co → membership cu →
       flag (parsePermissions (CompanyUser.permissions cu))
            "canViewAllSpecialties" = true →
       allowed = ofTrade co)
  ∧ (role = "ADMIN" →
     ∀ cu, membership cu →
       flag (parsePermissions (CompanyUser.permissions cu))
            "canViewAllSpecialties" = false →
       allowed = assigned)
  ∧ (role = "ADMIN" →
     (∀ cu, cu ∈ companyUsers db →
            ¬ (CompanyUser.companyId cu = companyId
               ∧ CompanyUser.userId cu = userId)) →
     canViewAllSpecialties DEFAULT_EMPLOYEE_PERMISSIONS = false →
     allowed = assigned)
  ∧ (role ≠ "OWNER" → role ≠ "ADMIN" → allowed = assigned)
  ∧ (∀ co x, x ∈ ofTrade co
             ↔ ∃ s, s ∈ specialties db ∧ Specialty.id s = x
                    ∧ Specialty.tradeId s = Company.tradeId co)
  ∧ (∀ x, x ∈ assigned
          ↔ ∃ r, r ∈ userSpecialties db ∧ UserSpecialty.specialtyId r = x
                 ∧ UserSpecialty.userId r = userId
                 ∧ UserSpecialty.companyId r = companyId).
Proof.
  intros Hsupport allowed ofTrade assigned company membership.
  subst allowed ofTrade assigned company membership. cbv beta.
  split; [| split; [| split; [| split; [| split; [| split]]]]].
  - intros -> co (Hin & Hid & Huniq). rewrite allowed_owner.
    by rewrite (getCompanyTradeId_row companyId co).
  - intros -> co cu (Hin & Hid & Huniq) (Hcu & Hc & Hu & Hcuniq) Hflag.
    rewrite allowed_admin.
    rewrite (getCompanyUserPermissions_row companyId userId cu) by done.
    rewrite Hflag. by rewrite (getCompanyTradeId_row companyId co).
  - intros -> cu (Hcu & Hc & Hu & Hcuniq) Hflag. rewrite allowed_admin.
    rewrite (getCompanyUserPermissions_row companyId userId cu) by done.
    by rewrite Hflag.
  - intros -> Hnone Hdefault. rewrite allowed_admin.
    unfold getCompanyUserPermissions. rewrite head_filter_None by done.
    rewrite spread_empty. unfold flag, perms_obj.
    rewrite lookup_insert_ne by done. rewrite lookup_insert_eq.
    simpl. by rewrite Hdefault.
  - intros Ho Ha. by apply allowed_other.
  - intros co x.
    apply (elem_of_tradeSpecialtyIds (Company.tradeId co) x).
  - apply elem_of_assignedSpecialtyIds.
Qed.

(** C9. For role USER, the job-detail operation returns a job only when a
    job-assignment record exists for (job, user): without one it returns
    [undefined], whatever the user's specialties.  So a job listed by
    [getJobs] through a specialty match alone cannot be fetched through
    [getJob].  With an assignment, a job of the company is returned. *)
Theorem job_detail_requires_assignment (id userId companyId : Z) :
  (∀ d, getJob db id userId "USER" companyId = Some d →
     ∃ a, a ∈ jobAssignments db ∧ JobAssignment.jobId a = id
          ∧ JobAssignment.userId a = userId)
  ∧ ((∀ a, a ∈ jobAssignments db →
         ¬ (JobAssignment.jobId a = id ∧ JobAssignment.userId a = userId)) →
     getJob db id userId "USER" companyId = None)
  ∧ (∀ j, j ∈ items (getJobs db userId "USER" companyId) →
       (∀ a, a ∈ jobAssignments db →
          ¬ (JobAssignment.jobId a = Job.id j
             ∧ JobAssignment.userId a = userId)) →
       getJob db (Job.id j) userId "USER" companyId = None)
  ∧ (∀ j a, j ∈ jobs db → Job.id j = id → Job.companyId j = companyId →
       a ∈ jobAssignments db → JobAssignment.jobId a = id →
       JobAssignment.userId a = userId →
       ∃ d, getJob db id userId "USER" companyId = Some d
            ∧ Job.id (JobWithItems.job d) = id
            ∧ JobWithItems.myRole d = "USER").
Proof.
  assert (∀ id', (∀ a, a ∈ jobAssignments db →
            ¬ (JobAssignment.jobId a = id' ∧ JobAssignment.userId a = userId)) →
          getJob db id' userId "USER" companyId = None) as Hnone.
  { intros id' Hno. unfold getJob.
    change (String.eqb "USER" "SUPPORT") with false.
    cbv iota. destruct (findJob db id' companyId) as [[j its]|]; [| done].
    change (String.eqb "USER" "OWNER" || String.eqb "USER" "ADMIN") with false.
    cbv iota. by rewrite head_filter_None. }
  split; [| split; [apply Hnone | split; [intros j _; apply Hnone |]]].
  - intros d. unfold getJob. change (String.eqb "USER" "SUPPORT") with false.
    cbv iota. destruct (findJob db id companyId) as [[j its]|]; [| done].
    change (String.eqb "USER" "OWNER" || String.eqb "USER" "ADMIN") with false.
    cbv iota.
    destruct (head (filter _ (jobAssignments db))) as [a|] eqn:Hhead; [| done].
    intros _. apply head_filter_elem in Hhead as [Ha [Hj Hu]]. eauto.
  - intros j a Hj Hid Hco Ha Haj Hau.
    unfold getJob. change (String.eqb "USER" "SUPPORT") with false.
    cbv iota. unfold findJob.
    destruct (head_filter_is_Some
                (λ j, Job.id j = id ∧ Job.companyId j = companyId)
                (jobs db) j Hj (conj Hid Hco)) as [j' Hj'].
    rewrite Hj'. apply head_filter_elem in Hj' as [_ [Hid' _]].
    change (String.eqb "USER" "OWNER" || String.eqb "USER" "ADMIN") with false.
    cbv iota.
    destruct (head_filter_is_Some
                (λ a, JobAssignment.jobId a = id
                      ∧ JobAssignment.userId a = userId)
                (jobAssignments db) a Ha (conj Haj Hau)) as [a' Ha'].
    rewrite Ha'. eexists. split; [reflexivity |]. done.
Qed.

(** For an employee the line items come back as stored when the effective
    [canViewPrices] holds, and redacted otherwise. *)
Lemma getJob_user_items id userId companyId d :
  getJob db id userId "USER" companyId = Some d →
  ∃ perms its,
    JobWithItems.permissions d = Some perms
    ∧ findJob db id companyId = Some (JobWithItems.job d, its)
    ∧ JobWithItems.items d
      = if canViewPrices perms then its else redactItem <$> its.
Proof.
  unfold getJob. change (String.eqb "USER" "SUPPORT") with false. cbv iota.
  destruct (findJob db id companyId) as [[j its]|]; [| done].
  change (String.eqb "USER" "OWNER" || String.eqb "USER" "ADMIN") with false.
  cbv iota.
  destruct (head (filter _ (jobAssignments db))) as [a|]; [| done].
  intros [= <-]. simpl. eexists _, its.
  split; [reflexivity |]. split; [reflexivity |].
  simpl. by destruct (_ && _).
Qed.

Lemma getCompanyTradeId_unknown companyId :
  (∀ c, c ∈ companies db → Company.id c ≠ companyId) →
  getCompanyTradeId db companyId = 0%Z.
Proof.
  intros Hunknown. unfold getCompanyTradeId.
  by rewrite head_filter_None.
Qed.

Lemma tradeSpecialtyIds_sentinel :
  (∀ s, s ∈ specialties db → Specialty.tradeId s ≠ 0%Z) →
  tradeSpecialtyIds db 0 = [].
Proof.
  intros Hserial. unfold tradeSpecialtyIds.
  by rewrite filter_none.
Qed.

Lemma assignedSpecialtyIds_unknown userId companyId :
  (∀ c, c ∈ companies db → Company.id c ≠ companyId) →
  (∀ r, r ∈ userSpecialties db →
        ∃ c, c ∈ companies db ∧ Company.id c = UserSpecialty.companyId r) →
  assignedSpecialtyIds db userId companyId = [].
Proof.
  intros Hunknown Hfk. unfold assignedSpecialtyIds.
  rewrite filter_none; [done |].
  intros r Hr [_ Hc]. destruct (Hfk r Hr) as (c & Hin & Hid).
  apply (Hunknown c Hin). congruence.
Qed.

Lemma companyPerms_no_membership companyId userId :
  (∀ cu, cu ∈ companyUsers db →
         ¬ (CompanyUser.companyId cu = companyId
            ∧ CompanyUser.userId cu = userId)) →
  getCompanyUserPermissions db companyId userId
  = perms_obj DEFAULT_EMPLOYEE_PERMISSIONS.
Proof.
  intros Hno. unfold getCompanyUserPermissions.
  rewrite head_filter_None by done. apply spread_empty.
Qed.

(** C5. Nothing is raised when company, trade or membership cannot be
    resolved.  For a company id with no company row (rows of the
    user-specialty table reference existing companies, and trade ids are
    serial keys, never 0): [getCompanyTradeId] yields the sentinel 0, trade
    0 has no specialties, and [getAllowedSpecialtyIds] is empty for every
    user and role.  For a user with no membership row,
    [getCompanyUserPermissions] yields a copy of the default employee
    baseline, so every flag is false when the baseline is all false. *)
Theorem fail_closed (companyId userId : Z) (role : string) :
  ((∀ c, c ∈ companies db → Company.id c ≠ companyId) →
   (∀ r, r ∈ userSpecialties db →
         ∃ c, c ∈ companies db ∧ Company.id c = UserSpecialty.companyId r) →
   (∀ s, s ∈ specialties db → Specialty.tradeId s ≠ 0%Z) →
   getCompanyTradeId db companyId = 0%Z
   ∧ tradeSpecialtyIds db (getCompanyTradeId db companyId) = []
   ∧ getAllowedSpecialtyIds db userId companyId role = [])
  ∧ ((∀ cu, cu ∈ companyUsers db →
            ¬ (CompanyUser.companyId cu = companyId
               ∧ CompanyUser.userId cu = userId)) →
     getCompanyUserPermissions db companyId userId
     = perms_obj DEFAULT_EMPLOYEE_PERMISSIONS
     ∧ (DEFAULT_EMPLOYEE_PERMISSIONS = AllFalse →
        perms_of_obj (getCompanyUserPermissions db companyId userId) = AllFalse
        ∧ ∀ k, flag (getCompanyUserPermissions db companyId userId) k = false)).
Proof.
  split.
  - intros Hunknown Hfk Hserial.
    pose proof (getCompanyTradeId_unknown companyId Hunknown) as Htrade.
    pose proof (tradeSpecialtyIds_sentinel Hserial) as Hspecs.
    pose proof (assignedSpecialtyIds_unknown userId companyId Hunknown Hfk)
      as Hassigned.
    rewrite Htrade. repeat split; [done |].
    unfold getAllowedSpecialtyIds. rewrite Htrade, Hspecs, Hassigned.
    by repeat match goal with
              | |- context [if ?b then _ else _] => destruct b
              end.
  - intros Hno. rewrite (companyPerms_no_membership _ _ Hno).
    split; [done |]. intros ->. split; [reflexivity |].
    intros k. unfold flag, perms_obj, AllFalse; simpl.
    repeat (rewrite lookup_insert; case_decide; [done |]).
    by rewrite lookup_empty.
Qed.

End StorageProps.

(** ** The rules on the example data *)

Lemma example_jobs_serial :
  ∀ j, j ∈ jobs example_db → Job.specialtyId j ≠ Some 0%Z.
Proof.
  intros j Hj. simpl in Hj.
  repeat (apply elem_of_cons in Hj as [-> | Hj]; [discriminate |]).
  by apply elem_of_nil in Hj.
Defined.

Lemma example_user_jobs :
  items (getJobs (env := example_env) example_db 12 "USER" 1)
  = [Job.mk 101 1 (Some 1%Z) "DRAFT" (Some 1%Z);
     Job.mk 102 1 (Some 2%Z) "SCHEDULED" (Some 2%Z);
     Job.mk 103 1 (Some 3%Z) "SENT" (Some 3%Z)].
Proof. vm_compute. reflexivity. Defined.

(** In the painting company 7 of trade 2: the owner and the admin with
    [canViewAllSpecialties] get the two specialties of trade 2, the admin
    without the flag and the employee get their assigned specialty. *)
Lemma allowed_specialties_resolution_witness :
  getAllowedSpecialtyIds (env := example_env2) example_db3 20 7 "OWNER"
  = [5; 6]%Z
  ∧ getAllowedSpecialtyIds (env := example_env2) example_db3 21 7 "ADMIN"
    = [5; 6]%Z
  ∧ getAllowedSpecialtyIds (env := example_env2) example_db3 22 7 "ADMIN"
    = [6]%Z
  ∧ getAllowedSpecialtyIds (env := example_env2) example_db3 23 7 "USER"
    = [5]%Z.
Proof.
  assert (∀ co', co' ∈ companies example_db3 → Company.id co' = 7%Z →
                 co' = Company.mk 7 2) as Hco.
  { intros co' Hin Hid. apply list_elem_of_In in Hin. simpl in Hin.
    destruct Hin as [<- | [<- | []]]; [discriminate Hid | reflexivity]. }
  assert (∀ u cu, cu ∈ companyUsers example_db3 →
                  (u = 21 ∨ u = 22)%Z →
                  ∀ cu', cu' ∈ companyUsers example_db3 →
                         CompanyUser.companyId cu' = 7%Z
                         ∧ CompanyUser.userId cu' = u →
                         CompanyUser.userId cu = u → cu' = cu) as Hcu.
  { intros u cu Hin Hu cu' Hin' [_ Hu'] Hcuu.
    apply list_elem_of_In in Hin, Hin'. simpl in Hin, Hin'.
    destruct Hin as [<- | [<- | [<- | [<- | []]]]];
      destruct Hin' as [<- | [<- | [<- | [<- | []]]]];
      simpl in *; try reflexivity; destruct Hu; congruence. }
  split; [| split; [| split]].
  - refine (proj1 (allowed_specialties_resolution (env := example_env2)
                     example_db3 20 7 "OWNER" _) eq_refl (Company.mk 7 2) _).
    + discriminate.
    + split; [apply list_elem_of_further, list_elem_of_here |].
      split; [reflexivity | exact Hco].
  - refine (proj1 (proj2 (allowed_specialties_resolution
                            (env := example_env2) example_db3 21 7 "ADMIN" _))
              eq_refl (Company.mk 7 2)
              (CompanyUser.mk 2 7 21 "ADMIN" true
                 (Some (perms_text
                          (mkPermissions false true false false false))))
              _ _ _).
    + discriminate.
    + split; [apply list_elem_of_further, list_elem_of_here |].
      split; [reflexivity | exact Hco].
    + split; [apply list_elem_of_further, list_elem_of_here |].
      split; [reflexivity |]. split; [reflexivity |].
      intros cu' Hin' Hkey.
      apply (Hcu 21%Z _ ltac:(apply list_elem_of_further, list_elem_of_here)
               ltac:(by left) cu' Hin' Hkey eq_refl).
    + vm_compute. reflexivity.
  - refine (proj1 (proj2 (proj2 (allowed_specialties_resolution
                                   (env := example_env2) example_db3 22 7
                                   "ADMIN" _)))
              eq_refl (CompanyUser.mk 3 7 22 "ADMIN" true (Some "{}")) _ _).
    + discriminate.
    + split; [do 2 apply list_elem_of_further; apply list_elem_of_here |].
      split; [reflexivity |]. split; [reflexivity |].
      intros cu' Hin' Hkey.
      apply (Hcu 22%Z _
               ltac:(do 2 apply list_elem_of_further; apply list_elem_of_here)
               ltac:(by right) cu' Hin' Hkey eq_refl).
    + vm_compute. reflexivity.
  - refine (proj1 (proj2 (proj2 (proj2 (proj2
              (allowed_specialties_resolution (env := example_env2)
                 example_db3 23 7 "USER" _))))) _ _);
      discriminate.
Defined.

(** Job 103 (specialty 3, outside {1, 2}) is listed because it is assigned;
    job 104 (specialty 4, no assignment) is not. *)
Lemma visible_jobs_by_role_witness :
  Job.mk 103 1 (Some 3%Z) "SENT" (Some 3%Z)
    ∈ items (getJobs (env := example_env) example_db 12 "USER" 1)
  ∧ Job.mk 104 1 (Some 4%Z) "DONE" (Some 4%Z)
    ∉ items (getJobs (env := example_env) example_db 12 "USER" 1).
Proof.
  pose proof (proj2 (visible_jobs_by_role (env := example_env) example_db 12 1)
                example_jobs_serial) as Hiff.
  split.
  - apply Hiff. split.
    + split; [| reflexivity]. simpl. do 2 right. left.
    + left. exists (JobAssignment.mk 1 103 12 (Some "{}")).
      split; [left | done].
  - intros Hin. apply Hiff in Hin as [_ [(a & Ha & Hjob & _) | (s & Hs & Hin)]].
    + simpl in Ha. apply list_elem_of_singleton in Ha as ->. discriminate.
    + injection Hs as <-.
      change (getAllowedSpecialtyIds (env := example_env) example_db
                12 1 "USER")
        with [1; 2]%Z in Hin.
      repeat (apply elem_of_cons in Hin as [Hin | Hin]; [discriminate |]).
      by apply elem_of_nil in Hin.
Defined.

(** C7, counterexample. The owner of the example data gets five jobs, all
    with a status of the fixed set; the SCHEDULED one is in no bucket, so
    the five counters add up to 4, not to [total] = 5. *)
Lemma job_stats_scheduled_uncounted :
  let r := getJobs (env := example_env) example_db 10 "OWNER" 1 in
  (∀ j, j ∈ items r → Job.status j ∈ JOB_STATUSES)
  ∧ total (stats r) = 5
  ∧ drafts (stats r) + sent (stats r) + approved (stats r)
    + inProgress (stats r) + done (stats r) = 4
  ∧ drafts (stats r) + sent (stats r) + approved (stats r)
    + inProgress (stats r) + done (stats r) ≠ total (stats r).
Proof.
  intros r. split; [| by vm_compute].
  intros j Hj.
  assert (items r = jobs example_db) as Hitems by (vm_compute; reflexivity).
  rewrite Hitems in Hj. simpl in Hj. unfold JOB_STATUSES.
  repeat (apply elem_of_cons in Hj as [-> | Hj]; [simpl; set_solver |]).
  by apply elem_of_nil in Hj.
Qed.

(** The stats of the owner's list of the example data: one SCHEDULED job
    closes the gap between the counters and the total. *)
Lemma job_stats_reduction_witness :
  let r := getJobs (env := example_env) example_db 10 "OWNER" 1 in
  drafts (stats r) + sent (stats r) + approved (stats r)
  + inProgress (stats r) + done (stats r)
  + countStatus "SCHEDULED" (items r) = total (stats r).
Proof.
  intros r.
  apply (job_stats_reduction (env := example_env) example_db 10 1 "OWNER").
  intros j Hj.
  assert (items (getJobs (env := example_env) example_db 10 "OWNER" 1)
          = jobs example_db) as Hitems by (vm_compute; reflexivity).
  rewrite Hitems in Hj. simpl in Hj. unfold JOB_STATUSES.
  repeat (apply elem_of_cons in Hj as [-> | Hj]; [simpl; set_solver |]).
  by apply elem_of_nil in Hj.
Defined.

(** Job 101 is listed for the employee through specialty 1 alone, and the
    job-detail operation refuses it. *)
Lemma job_detail_requires_assignment_witness :
  Job.mk 101 1 (Some 1%Z) "DRAFT" (Some 1%Z)
    ∈ items (getJobs (env := example_env) example_db 12 "USER" 1)
  ∧ getJob (env := example_env) example_db 101 12 "USER" 1 = None.
Proof.
  assert (Job.mk 101 1 (Some 1%Z) "DRAFT" (Some 1%Z)
            ∈ items (getJobs (env := example_env) example_db 12 "USER" 1))
    as Hin by (rewrite example_user_jobs; left).
  split; [exact Hin |].
  apply (proj1 (proj2 (proj2
    (job_detail_requires_assignment (env := example_env) example_db
       101 12 1))) _ Hin).
  intros a Ha [Hjob _]. simpl in Ha.
  apply list_elem_of_singleton in Ha as ->. discriminate.
Defined.

(** Company 99 has no row and user 77 no membership in the example data. *)
Lemma fail_closed_witness :
  getAllowedSpecialtyIds (env := example_env) example_db 12 99 "OWNER" = []
  ∧ perms_of_obj
      (getCompanyUserPermissions (env := example_env) example_db 1 77)
    = AllFalse.
Proof.
  pose proof (fail_closed (env := example_env) example_db 99 12 "OWNER")
    as [Hcompany _].
  pose proof (fail_closed (env := example_env) example_db 1 77 "USER")
    as [_ Hmember].
  split.
  - apply Hcompany.
    + intros c Hc. simpl in Hc. apply list_elem_of_singleton in Hc as ->.
      discriminate.
    + intros r Hr. exists (Company.mk 1 1). split; [left |]. simpl in Hr.
      repeat (apply elem_of_cons in Hr as [-> | Hr]; [reflexivity |]).
      by apply elem_of_nil in Hr.
    + intros s Hs. simpl in Hs.
      repeat (apply elem_of_cons in Hs as [-> | Hs]; [discriminate |]).
      by apply elem_of_nil in Hs.
  - apply Hmember; [| reflexivity].
    intros cu Hcu [_ Hu]. simpl in Hcu.
    repeat (apply elem_of_cons in Hcu as [-> | Hcu]; [discriminate |]).
    by apply elem_of_nil in Hcu.
Defined.

(** ** Price redaction *)

Lemma fresh_loc_not_in (h : heap) : h !! fresh (dom h) = None.
Proof. apply not_elem_of_dom, is_fresh. Qed.

Lemma alloc_frame (h : heap) c l c' :
  h !! l = Some c' → fst (alloc h c) !! l = Some c'.
Proof.
  intros Hl. unfold alloc; simpl. rewrite lookup_insert_ne; [done |].
  intros <-. by rewrite fresh_loc_not_in in Hl.
Qed.

Lemma obj_at_alloc (h : heap) c l :
  l ∈ dom h → obj_at (fst (alloc h c)) l = obj_at h l.
Proof.
  intros Hd. apply elem_of_dom in Hd as [c' Hl]. unfold obj_at.
  by rewrite (alloc_frame h c l c' Hl), Hl.
Qed.

Lemma map_alloc_spec f ls : ∀ h h' ls',
  map_alloc f h ls = (h', ls') →
  (∀ l, l ∈ ls → l ∈ dom h) →
  length ls' = length ls
  ∧ (∀ l c, h !! l = Some c → h' !! l = Some c)
  ∧ (∀ l', l' ∈ ls' → (l' ∉ dom h) ∧ l' ∈ dom h')
  ∧ NoDup ls'
  ∧ (∀ i l, ls !! i = Some l →
       ∃ l', ls' !! i = Some l' ∧ h' !! l' = Some (CObj (f (obj_at h l)))).
Proof.
  induction ls as [|l rest IH]; intros h h' ls' Hmap Hwf;
    cbn [map_alloc] in Hmap.
  - injection Hmap as <- <-.
    split; [done |]. split; [done |].
    split; [intros l' Hl'; by apply elem_of_nil in Hl' |].
    split; [constructor | done].
  - destruct (alloc h (CObj (f (obj_at h l)))) as [h1 l1] eqn:Halloc.
    destruct (map_alloc f h1 rest) as [h2 ls2] eqn:Hrest.
    injection Hmap as <- <-.
    assert (h1 = fst (alloc h (CObj (f (obj_at h l))))) as Hh1
      by (by rewrite Halloc).
    assert (l1 = fresh (dom h)) as Hl1 by (unfold alloc in Halloc; congruence).
    assert (h1 !! l1 = Some (CObj (f (obj_at h l)))) as Hnew.
    { unfold alloc in Halloc. injection Halloc as <- <-.
      apply lookup_insert_eq. }
    assert (∀ l0 c, h !! l0 = Some c → h1 !! l0 = Some c) as Hstep.
    { intros l0 c Hl0. rewrite Hh1. by apply alloc_frame. }
    apply IH in Hrest as (Hlen & Hframe & Hfresh & Hnd & Hcont).
    2:{ intros l0 Hl0. apply elem_of_dom.
        destruct (proj1 (elem_of_dom h l0)
                         (Hwf l0 (list_elem_of_further _ _ _ Hl0)))
          as [c Hc].
        exists c. by apply Hstep. }
    split; [simpl; by rewrite Hlen |].
    split; [intros l0 c Hl0; by apply Hframe, Hstep |].
    split.
    { intros l' Hl'. apply elem_of_cons in Hl' as [-> | Hl'].
      - split; [rewrite Hl1; apply is_fresh |].
        apply elem_of_dom. eexists. by apply Hframe.
      - destruct (Hfresh l' Hl') as [Hnot Hin]. split; [| done].
        intros Hd. apply elem_of_dom in Hd as [c Hc]. apply Hnot, elem_of_dom.
        exists c. by apply Hstep. }
    split.
    { constructor; [| done]. intros Hl'. destruct (Hfresh l1 Hl') as [Hnot _].
      apply Hnot, elem_of_dom. by eexists. }
    intros [|i] l0 Hi; simpl in Hi.
    + injection Hi as <-. exists l1. split; [done |]. by apply Hframe.
    + destruct (Hcont i l0 Hi) as (l' & Hl' & Hobj).
      exists l'. split; [done |]. rewrite Hobj, Hh1, obj_at_alloc; [done |].
      apply Hwf. right. by eapply list_elem_of_lookup_2.
Qed.

Lemma array_map_fresh_copy f (h : heap) arr ls :
  h !! arr = Some (CArr ls) →
  (∀ l, l ∈ ls → ∃ o, h !! l = Some (CObj o)) →
  fresh_copy f h ls (array_map f h arr).
Proof.
  intros Harr Hobjs. unfold array_map. rewrite Harr.
  destruct (alloc h (CArr [])) as [h0 arr'] eqn:Halloc.
  destruct (map_alloc f h0 ls) as [h1 ls1] eqn:Hmap.
  assert (h0 = fst (alloc h (CArr []))) as Hh0 by (by rewrite Halloc).
  assert (arr' = fresh (dom h)) as Harr'
    by (unfold alloc in Halloc; congruence).
  assert (h0 !! arr' = Some (CArr [])) as Hnew.
  { unfold alloc in Halloc. injection Halloc as <- <-. apply lookup_insert_eq. }
  assert (∀ l c, h !! l = Some c → h0 !! l = Some c) as Hstep.
  { intros l c Hl. rewrite Hh0. by apply alloc_frame. }
  apply map_alloc_spec in Hmap as (Hlen & Hframe & Hfresh & Hnd & Hcont).
  2:{ intros l Hl. destruct (Hobjs l Hl) as [o Ho].
      apply elem_of_dom. eexists. by apply Hstep. }
  assert (arr' ∉ dom h) as Hfresh_arr by (rewrite Harr'; apply is_fresh).
  assert (∀ l', l' ∈ ls1 → (l' ∉ dom h) ∧ l' ≠ arr') as Hsep.
  { intros l' Hl'. destruct (Hfresh l' Hl') as [Hnot _]. split.
    - intros Hd. apply elem_of_dom in Hd as [c Hc].
      apply Hnot, elem_of_dom. eexists. by apply Hstep.
    - intros ->. apply Hnot, elem_of_dom. by eexists. }
  exists (<[arr' := CArr ls1]> h1), arr', ls1.
  split; [done |]. split; [done |].
  split; [apply lookup_insert_eq |]. split; [done |]. split; [done |].
  split; [done |]. split.
  - intros l c Hl. rewrite lookup_insert_ne.
    + by apply Hframe, Hstep.
    + intros <-. apply Hfresh_arr, elem_of_dom. by eexists.
  - intros i l o Hi Ho. destruct (Hcont i l Hi) as (l' & Hl' & Hobj).
    exists l'. split; [done |].
    rewrite lookup_insert_ne.
    + rewrite Hobj. unfold obj_at. by rewrite (Hstep l _ Ho).
    + intros <-. apply list_elem_of_lookup_2 in Hl'.
      by destruct (Hsep _ Hl') as [_ Hne].
Qed.

Lemma stripPrice_fields (s : jsobj) :
  stripPrice s !! "unitPrice" = Some JNull
  ∧ ∀ k, k ≠ "unitPrice" → stripPrice s !! k = s !! k.
Proof.
  unfold stripPrice. split; [apply lookup_insert_eq |].
  intros k Hk. by rewrite lookup_insert_ne.
Qed.

Lemma redactItem_fields (item : jsobj) :
  redactItem item !! "unitPrice" = Some (JStr "0")
  ∧ redactItem item !! "lineTotal" = Some (JStr "0")
  ∧ ∀ k, k ≠ "unitPrice" → k ≠ "lineTotal" → redactItem item !! k = item !! k.
Proof.
  unfold redactItem. split; [| split].
  - rewrite lookup_insert_ne by done. apply lookup_insert_eq.
  - apply lookup_insert_eq.
  - intros k Hu Hl. by rewrite !lookup_insert_ne.
Qed.

(** C6. When [canViewPrices] is false, the redaction of a service list
    ([unitPrice] set to [null]) and of the line items of a job ([unitPrice]
    and [lineTotal] set to ["0"]) returns a new array of new objects: the
    references are fresh, every cell of the input heap, the input array and
    its elements included, is unchanged, and the element at each index is
    the redacted image of the input element, the other fields being kept.
    When [canViewPrices] is true the same array is returned and the heap is
    unchanged. *)
Theorem redaction_copies (h : heap) (arr : loc) (ls : list loc) :
  h !! arr = Some (CArr ls) →
  (∀ l, l ∈ ls → ∃ o, h !! l = Some (CObj o)) →
  servicesView true h arr = Normal (h, arr)
  ∧ jobItemsView true h arr = Normal (h, arr)
  ∧ fresh_copy stripPrice h ls (servicesView false h arr)
  ∧ fresh_copy redactItem h ls (jobItemsView false h arr)
  ∧ (∀ s : jsobj, stripPrice s !! "unitPrice" = Some JNull
       ∧ ∀ k, k ≠ "unitPrice" → stripPrice s !! k = s !! k)
  ∧ (∀ item : jsobj, redactItem item !! "unitPrice" = Some (JStr "0")
       ∧ redactItem item !! "lineTotal" = Some (JStr "0")
       ∧ ∀ k, k ≠ "unitPrice" → k ≠ "lineTotal" →
              redactItem item !! k = item !! k).
Proof.
  intros Harr Hobjs.
  split; [done |]. split; [done |].
  split; [by apply array_map_fresh_copy |].
  split; [by apply array_map_fresh_copy |].
  split; [apply stripPrice_fields | apply redactItem_fields].
Qed.

(** The two-element list of the example heap: its redacted copy is fresh
    and the heap cells 1, 2 and 3 are kept. *)
Lemma redaction_copies_witness :
  fresh_copy stripPrice example_heap [1%positive; 2%positive]
    (servicesView false example_heap 3%positive)
  ∧ servicesView true example_heap 3%positive
    = Normal (example_heap, 3%positive).
Proof.
  assert (∀ l, l ∈ [1%positive; 2%positive] →
               ∃ o, example_heap !! l = Some (CObj o)) as Hobjs.
  { intros l Hl.
    repeat (apply elem_of_cons in Hl as [-> | Hl]; [by eexists |]).
    by apply elem_of_nil in Hl. }
  pose proof (redaction_copies example_heap 3%positive
                [1%positive; 2%positive] eq_refl Hobjs) as Hcopy.
  split; [apply Hcopy | apply Hcopy].
Defined.

(** ** Price calculation *)

Lemma float_or_truthy x d : float_truthy x = true → float_or x d = x.
Proof. unfold float_or. by intros ->. Qed.

Lemma float_or_falsy x d : float_truthy x = false → float_or x d = d.
Proof. unfold float_or. by intros ->. Qed.

(** C8 (as the code has it). With the default tier tables, for every base
    price, anchor multiplier, tier, complexity and quantity, the calculation
    reads the base price [b] (0 when it is zero or not a number) and the
    anchor [a] (1.15 when it is zero or not a number) and yields
    [unitPrice = b * a * materialMult * complexityMult],
    [total = unitPrice * quantity], the low bound
    [b * a * (basic * normal) * quantity] and the high bound
    [b * a * (premium * hard) * quantity].  For base 100, anchor 1.15,
    standard, normal and unit EA (quantity 1), [toFixed(2)] displays 132.25,
    115.00 and 186.30. *)
Theorem priceCalc_formula (base anchor qty : float) (tier complexity : string)
    (m c : float) :
  (tier, m) ∈ MATERIAL_DEFAULTS →
  (complexity, c) ∈ COMPLEXITY_DEFAULTS →
  let rule := PricingRule.mk base anchor default_materialMultiplier
                             default_complexityMultiplier in
  let b := float_or base 0 in
  let a := float_or anchor 1.15 in
  priceCalc (Some rule) tier complexity qty
  = Some {| basePrice := b; anchorMult := a; matMult := m; compMult := c;
            unitPrice := (b * a * m * c)%float;
            totalEstimate := (b * a * m * c * qty)%float;
            lowPrice := (b * a * (1.0 * 1.0) * qty)%float;
            highPrice := (b * a * (1.35 * 1.2) * qty)%float |}
  ∧ (float_truthy base = true → b = base)
  ∧ (float_truthy base = false → b = 0%float)
  ∧ (float_truthy anchor = true → a = anchor)
  ∧ (float_truthy anchor = false → a = 1.15%float)
  ∧ (let r := priceCalc (Some example_rule) "standard" "normal"
                        (calculatedArea 0 0 "EA") in
     (r ≫= λ p, toFixed (unitPrice p) 2) = Some "132.25"
     ∧ (r ≫= λ p, toFixed (totalEstimate p) 2) = Some "132.25"
     ∧ (r ≫= λ p, toFixed (lowPrice p) 2) = Some "115.00"
     ∧ (r ≫= λ p, toFixed (highPrice p) 2) = Some "186.30").
Proof.
  intros Htier Hcomplexity rule b a.
  split.
  - unfold MATERIAL_DEFAULTS in Htier.
    unfold COMPLEXITY_DEFAULTS in Hcomplexity.
    repeat (apply elem_of_cons in Htier as [Htier | Htier];
            [injection Htier as -> -> |]);
      [| | | by apply elem_of_nil in Htier];
      (repeat (apply elem_of_cons in Hcomplexity as [Hcomplexity | Hcomplexity];
               [injection Hcomplexity as -> -> |]);
       [| | by apply elem_of_nil in Hcomplexity]);
      subst rule b a; vm_compute; reflexivity.
  - split; [apply float_or_truthy |]. split; [apply float_or_falsy |].
    split; [apply float_or_truthy |]. split; [apply float_or_falsy |].
    vm_compute. by repeat split.
Qed.

(** The premium tier on a hard job, base 100 and anchor 1.15, two units. *)
Lemma priceCalc_formula_witness :
  (unitPrice <$> priceCalc (Some example_rule) "premium" "hard" 2)
  = Some (100 * 1.15 * 1.35 * 1.2)%float.
Proof.
  unfold example_rule.
  rewrite (proj1 (priceCalc_formula 100 1.15 2 "premium" "hard" 1.35 1.2
    ltac:(unfold MATERIAL_DEFAULTS; do 2 right; left)
    ltac:(unfold COMPLEXITY_DEFAULTS; right; left))).
  reflexivity.
Defined.

(** C8, counterexample. A rule with anchor multiplier 0: the product
    [100 * 0 * 1.15 * 1.0] is 0, the calculation falls back to the anchor
    1.15 and yields a unit price displayed as 132.25. *)
Lemma priceCalc_zero_anchor :
  let r := priceCalc (Some (PricingRule.mk 100 0 default_materialMultiplier
                                           default_complexityMultiplier))
                     "standard" "normal" 1 in
  (r ≫= λ p, toFixed (unitPrice p) 2) = Some "132.25"
  ∧ toFixed (100 * 0 * 1.15 * 1.0) 2 = Some "0.00"
  ∧ ((λ p, PrimFloat.eqb (unitPrice p) (100 * 0 * 1.15 * 1.0)) <$> r)
    = Some false.
Proof. vm_compute. by repeat split. Qed.

(** * Further properties of the storage operations *)

(** ** Orders *)

#[global] Instance createdAt_le_total : Total createdAt_le.
Proof.
  intros a b. unfold createdAt_le.
  destruct (Job.createdAt a), (Job.createdAt b); try tauto. lia.
Qed.

#[global] Instance createdAt_le_trans : Transitive createdAt_le.
Proof.
  intros a b c. unfold createdAt_le.
  destruct (Job.createdAt a), (Job.createdAt b), (Job.createdAt c);
    try tauto. lia.
Qed.

#[global] Instance service_id_le_total : Total service_id_le.
Proof. intros a b. unfold service_id_le. lia. Qed.

#[global] Instance service_id_le_trans : Transitive service_id_le.
Proof. intros a b c. unfold service_id_le. lia. Qed.

Lemma StronglySorted_sublist {A} (R : relation A) (l1 l2 : list A) :
  l1 `sublist_of` l2 → StronglySorted R l2 → StronglySorted R l1.
Proof.
  induction 1 as [|x l1 l2 Hsub IH|x l1 l2 Hsub IH]; intros Hsorted.
  - constructor.
  - apply StronglySorted_inv in Hsorted as [Hl2 Hall].
    constructor; [by apply IH |].
    rewrite Forall_forall in Hall |- *. intros y Hy. apply Hall.
    by eapply elem_of_sublist.
  - apply StronglySorted_inv in Hsorted as [Hl2 _]. by apply IH.
Qed.

Section StorageMore.
Context {env : Env}.
Variable db : Store.

(** ** Services *)

Lemma elem_of_sorted_services (P : Service.t → Prop) `{∀ s, Decision (P s)} s :
  s ∈ merge_sort service_id_le (filter P (services db))
  ↔ s ∈ services db ∧ P s.
Proof.
  rewrite (merge_sort_Permutation service_id_le), list_elem_of_filter. tauto.
Qed.

(** X1. For every role, a service is returned by [getServices] exactly when
    it is an active service of the company whose specialty is in the
    caller's allowed-specialty set and, when a nonzero specialty filter is
    given, equals that filter.  The list is sorted by service id. *)
Theorem getServices_visible (companyId userId : Z) (role : string)
    (specialtyId : option Z) :
  (∀ s, s ∈ getServices db companyId userId role specialtyId
        ↔ s ∈ services db
          ∧ Service.companyId s = companyId
          ∧ Service.active s = true
          ∧ Service.specialtyId s ∈ getAllowedSpecialtyIds db userId companyId role
          ∧ (∀ sid, specialtyId = Some sid → sid ≠ 0%Z →
                    Service.specialtyId s = sid))
  ∧ StronglySorted service_id_le
      (getServices db companyId userId role specialtyId).
Proof.
  unfold getServices.
  destruct (String.eqb_spec role "SUPPORT") as [-> | Hrole].
  { split; [| constructor]. intros s. split.
    - intros Hs. by apply elem_of_nil in Hs.
    - intros (_ & _ & _ & Hin & _). by apply elem_of_nil in Hin. }
  cbv zeta.
  set (allowedIds := getAllowedSpecialtyIds db userId companyId role).
  destruct (bool_decide (length allowedIds = 0)) eqn:Hempty.
  { apply length_zero_nil in Hempty. rewrite Hempty.
    split; [| constructor]. intros s. split.
    - intros Hs. by apply elem_of_nil in Hs.
    - intros (_ & _ & _ & Hin & _). by apply elem_of_nil in Hin. }
  destruct specialtyId as [sid|].
  - destruct (bool_decide (sid = 0%Z)) eqn:Hzero.
    + apply bool_decide_eq_true in Hzero as ->.
      split; [| apply StronglySorted_merge_sort; apply _].
      intros s. rewrite elem_of_sorted_services. split.
      * intros (Hs & (Hc & Ha) & Hin). repeat split; try done.
        intros sid' [= <-] Hne. done.
      * intros (Hs & Hc & Ha & Hin & _). done.
    + apply bool_decide_eq_false in Hzero.
      destruct (includes allowedIds sid) eqn:Hincl; simpl.
      * apply includes_spec in Hincl.
        split; [| apply StronglySorted_merge_sort; apply _].
        intros s. rewrite elem_of_sorted_services. split.
        -- intros (Hs & (Hc & Ha) & Heq). repeat split; try done.
           ++ by rewrite Heq.
           ++ by intros sid' [= <-] _.
        -- intros (Hs & Hc & Ha & Hin & Hfilter).
           repeat split; try done. by apply Hfilter.
      * split; [| constructor]. intros s. split.
        -- intros Hs. by apply elem_of_nil in Hs.
        -- intros (_ & _ & _ & Hin & Hfilter).
           rewrite (Hfilter sid eq_refl Hzero) in Hin.
           apply includes_spec in Hin. congruence.
  - split; [| apply StronglySorted_merge_sort; apply _].
    intros s. rewrite elem_of_sorted_services. split.
    + intros (Hs & (Hc & Ha) & Hin). repeat split; try done.
    + intros (Hs & Hc & Ha & Hin & _). done.
Qed.

(** ** Job lists *)

(** X2. For every role the job list is a sublist of the company's jobs in
    [createdAt] order: each listed job is a job of the caller's company, the
    order is kept, and no caller is shown more jobs than the owner. *)
Theorem getJobs_sublist (userId companyId : Z) (role : string) :
  items (getJobs db userId role companyId)
    `sublist_of` companyJobs db companyId
  ∧ items (getJobs db userId role companyId)
      `sublist_of` items (getJobs db userId "OWNER" companyId)
  ∧ StronglySorted createdAt_le (items (getJobs db userId role companyId))
  ∧ (∀ j, j ∈ items (getJobs db userId role companyId) →
          j ∈ jobs db ∧ Job.companyId j = companyId)
  ∧ (total (stats (getJobs db userId role companyId))
     ≤ total (stats (getJobs db userId "OWNER" companyId)))%nat.
Proof.
  assert (items (getJobs db userId role companyId)
            `sublist_of` companyJobs db companyId) as Hsub.
  { destruct (decide (role = "SUPPORT")) as [-> | Hs]; [apply sublist_nil_l |].
    destruct (decide (role = "OWNER")) as [-> | Ho]; [done |].
    destruct (decide (role = "ADMIN")) as [-> | Ha]; [done |].
    rewrite visibleJobs_other_items by done. apply sublist_filter. }
  split; [done |]. split; [done |]. split.
  { eapply StronglySorted_sublist; [exact Hsub |].
    apply StronglySorted_merge_sort; apply _. }
  split.
  { intros j Hj. apply elem_of_companyJobs. by eapply elem_of_sublist. }
  rewrite !visibleJobs_stats. simpl. by apply sublist_length.
Qed.

(** ** Job detail *)

Lemma findJob_Some id companyId j its :
  findJob db id companyId = Some (j, its) →
  j ∈ jobs db ∧ Job.id j = id ∧ Job.companyId j = companyId
  ∧ its = JobItem.row <$>
            filter (λ it, JobItem.jobId it = id) (jobItems db).
Proof.
  unfold findJob.
  destruct (head (filter _ (jobs db))) as [j'|] eqn:Hhead; [| done].
  intros [= <- <-]. apply head_filter_elem in Hhead as [Hin [Hid Hco]].
  by rewrite Hid.
Qed.

(** The shape of a job-detail result, by role. *)
Lemma getJob_Some id userId role companyId d :
  getJob db id userId role companyId = Some d →
  role ≠ "SUPPORT"
  ∧ ∃ its, findJob db id companyId = Some (JobWithItems.job d, its)
    ∧ ((role = "OWNER" ∨ role = "ADMIN")
       ∧ d = JobWithItems.mk (JobWithItems.job d) its "OWNER" None None
       ∨ (role ≠ "OWNER" ∧ role ≠ "ADMIN")
         ∧ ∃ a, a ∈ jobAssignments db
              ∧ JobAssignment.jobId a = id
              ∧ JobAssignment.userId a = userId
              ∧ let companyPerms := getCompanyUserPermissions db companyId userId in
                let perms :=
                  capPermissions
                    (perms_of_obj (parsePermissions (JobAssignment.permissions a)))
                    (perms_of_obj companyPerms) in
                d = JobWithItems.mk (JobWithItems.job d)
                      (if canViewPrices perms then its else redactItem <$> its)
                      "USER" (Some perms) (Some companyPerms)).
Proof.
  unfold getJob.
  destruct (String.eqb_spec role "SUPPORT") as [-> | Hs]; [done |].
  destruct (findJob db id companyId) as [[j its]|]; [| done].
  destruct (String.eqb_spec role "OWNER") as [-> | Ho]; simpl orb; cbv iota.
  { intros [= <-]. split; [done |]. exists its. split; [done |]. left. auto. }
  destruct (String.eqb_spec role "ADMIN") as [-> | Ha]; cbv iota.
  { intros [= <-]. split; [done |]. exists its. split; [done |]. left. auto. }
  destruct (head (filter _ (jobAssignments db))) as [a|] eqn:Hhead; [| done].
  intros [= <-]. split; [done |]. exists its. split; [done |]. right.
  split; [done |]. apply head_filter_elem in Hhead as [Hin [Hj Hu]].
  exists a. repeat split; try done. simpl.
  by destruct (_ && _).
Qed.

(** X3. Whatever the role, a job returned by [getJob] is the job of the
    caller's company with the requested id, and it is one of the jobs
    [getJobs] lists for the same caller. *)
Theorem getJob_listed (id userId companyId : Z) (role : string)
    (d : JobWithItems.t) :
  getJob db id userId role companyId = Some d →
  role ≠ "SUPPORT"
  ∧ JobWithItems.job d ∈ jobs db
  ∧ Job.id (JobWithItems.job d) = id
  ∧ Job.companyId (JobWithItems.job d) = companyId
  ∧ JobWithItems.job d ∈ items (getJobs db userId role companyId).
Proof.
  intros Hget. apply getJob_Some in Hget as (Hs & its & Hfind & Hrole).
  apply findJob_Some in Hfind as (Hin & Hid & Hco & _).
  repeat split; try done.
  destruct Hrole as [[[-> | ->] _] | [[Ho Ha] (a & Ha_in & Hj & Hu & _)]].
  - by apply elem_of_companyJobs.
  - by apply elem_of_companyJobs.
  - rewrite visibleJobs_other_items by done.
    apply list_elem_of_filter. split; [| by apply elem_of_companyJobs].
    apply Is_true_true, jobVisible_spec. left.
    apply assigned_jobIds_spec. exists a. by rewrite Hid.
Qed.

(** X4. The company permission set is a ceiling on price visibility in the
    job detail: for an employee whose company permissions lack
    [canViewPrices], every returned line item has [unitPrice] and
    [lineTotal] ["0"], whatever the job assignment grants.  OWNER and ADMIN
    get the stored line items, whatever their permissions. *)
Theorem getJob_price_ceiling (id userId companyId : Z) (role : string)
    (d : JobWithItems.t) :
  getJob db id userId role companyId = Some d →
  (role ≠ "OWNER" → role ≠ "ADMIN" →
   flag (getCompanyUserPermissions db companyId userId) "canViewPrices" = false →
   ∀ item, item ∈ JobWithItems.items d →
           item !! "unitPrice" = Some (JStr "0")
           ∧ item !! "lineTotal" = Some (JStr "0"))
  ∧ (role = "OWNER" ∨ role = "ADMIN" →
     JobWithItems.items d
     = JobItem.row <$> filter (λ it, JobItem.jobId it = id) (jobItems db)).
Proof.
  intros Hget. apply getJob_Some in Hget as (Hs & its & Hfind & Hrole).
  apply findJob_Some in Hfind as (_ & _ & _ & Hits).
  split.
  - intros Ho Ha Hflag item Hitem.
    destruct Hrole as [[[? | ?] _] | [_ (a & _ & _ & _ & Hd)]]; [done.. |].
    rewrite Hd in Hitem. simpl in Hitem. rewrite Hflag, andb_false_r in Hitem.
    apply list_elem_of_fmap in Hitem as (item0 & -> & _).
    split; apply redactItem_fields.
  - intros Hrole'.
    destruct Hrole as [[_ Hd] | [[Ho Ha] _]]; [| by destruct Hrole'].
    by rewrite Hd.
Qed.

(** X5. The effective permissions returned with a job detail never exceed
    the caller's company permissions nor the permissions stored with the
    job assignment, and the company permissions returned are those of
    [getCompanyUserPermissions]. *)
Theorem getJob_permissions_capped (id userId companyId : Z) (role : string)
    (d : JobWithItems.t) (p : Permissions) :
  getJob db id userId role companyId = Some d →
  JobWithItems.permissions d = Some p →
  perms_le p (perms_of_obj (getCompanyUserPermissions db companyId userId))
  ∧ JobWithItems.companyPermissions d
    = Some (getCompanyUserPermissions db companyId userId)
  ∧ ∃ a, a ∈ jobAssignments db
         ∧ JobAssignment.jobId a = id
         ∧ JobAssignment.userId a = userId
         ∧ perms_le p
             (perms_of_obj (parsePermissions (JobAssignment.permissions a))).
Proof.
  intros Hget Hp. apply getJob_Some in Hget as (_ & its & _ & Hrole).
  destruct Hrole as [[_ Hd] | [_ (a & Ha & Hj & Hu & Hd)]].
  { rewrite Hd in Hp. discriminate. }
  rewrite Hd in Hp |- *. simpl in Hp |- *. injection Hp as <-.
  split; [apply capPermissions_le_company |]. split; [done |].
  exists a. split; [done |]. split; [done |]. split; [done |].
  apply capPermissions_le_job.
Qed.

End StorageMore.

(** The employee of the example data opens the assigned job 103. *)
Lemma getJob_listed_witness :
  ∃ d, getJob (env := example_env) example_db 103 12 "USER" 1 = Some d
       ∧ JobWithItems.job d
           ∈ items (getJobs (env := example_env) example_db 12 "USER" 1).
Proof.
  eexists. split; [vm_compute; reflexivity |].
  eapply (getJob_listed (env := example_env) example_db 103 12 1 "USER").
  vm_compute. reflexivity.
Defined.

(** ** Stored permission texts that are not objects *)

Lemma pretty_N_go_not_c x s s' :
  s ≠ "c" +:+ s' → pretty_N_go x s ≠ "c" +:+ s'.
Proof.
  revert s. induction (N.lt_wf_0 x) as [x _ IH]; intros s Hs.
  assert (x = 0 ∨ 0 < x)%N as [-> | Hpos] by lia.
  - by rewrite pretty_N_go_0.
  - rewrite pretty_N_go_step by done. apply IH.
    { by apply N.div_lt. }
    unfold pretty_N_char. by repeat case_match.
Qed.

(** The decimal name of an index does not start with the letter c. *)
Lemma pretty_nat_not_c (i : nat) s' : pretty i ≠ "c" +:+ s'.
Proof.
  unfold pretty, pretty_nat, pretty, pretty_N.
  case_decide; [done |]. by apply pretty_N_go_not_c.
Qed.

Lemma permission_key_starts_with_c k :
  k ∈ permission_keys → ∃ s', k = "c" +:+ s'.
Proof.
  unfold permission_keys. rewrite !elem_of_cons, elem_of_nil.
  intros [->|[->|[->|[->|[->|[]]]]]]; eexists; reflexivity.
Qed.

Lemma indexed_no_permission_key vs k :
  k ∈ permission_keys → indexed vs !! k = None.
Proof.
  intros Hk. unfold indexed. apply not_elem_of_list_to_map_1.
  intros Hin. apply list_elem_of_fmap in Hin as ([k' v] & -> & Hin).
  apply elem_of_lookup_imap in Hin as (i & y & [= -> ->] & _).
  destruct (permission_key_starts_with_c _ Hk) as [s' Hs'].
  by apply pretty_nat_not_c in Hs'.
Qed.

Lemma perms_of_obj_perms_obj p : perms_of_obj (perms_obj p) = p.
Proof. by destruct p. Qed.

Lemma perms_of_obj_ext (o1 o2 : jsobj) :
  (∀ k, k ∈ permission_keys → o1 !! k = o2 !! k) →
  perms_of_obj o1 = perms_of_obj o2.
Proof.
  intros Hext. unfold perms_of_obj, flag.
  rewrite !Hext; [done | unfold permission_keys; set_solver..].
Qed.

(** X6. A stored permission text that is valid JSON but not an object
    ([null], a boolean, a number, a string, an array) grants nothing: the
    five flags of the parsed permissions are those of the default employee
    baseline. *)
Theorem parsePermissions_non_object `{env : Env} (s : string) (v : json) :
  s ≠ "" →
  JSON_parse s = Normal v →
  (∀ members, v ≠ JObj members) →
  (∀ k, k ∈ permission_keys →
        parsePermissions (Some s) !! k
        = perms_obj DEFAULT_EMPLOYEE_PERMISSIONS !! k)
  ∧ perms_of_obj (parsePermissions (Some s)) = DEFAULT_EMPLOYEE_PERMISSIONS.
Proof.
  intros Hne Hparse Hnot.
  assert (∀ k, k ∈ permission_keys →
               parsePermissions (Some s) !! k
               = perms_obj DEFAULT_EMPLOYEE_PERMISSIONS !! k) as Hkeys.
  { intros k Hk. rewrite (parsePermissions_valid s v Hne Hparse), spread_lookup.
    destruct v as [| b | x | str | elems | members]; simpl;
      rewrite ?lookup_empty, ?indexed_no_permission_key by done; try done.
    by destruct (Hnot members). }
  split; [done |].
  transitivity (perms_of_obj (perms_obj DEFAULT_EMPLOYEE_PERMISSIONS));
    [by apply perms_of_obj_ext | apply perms_of_obj_perms_obj].
Qed.

(** The stored text [[true]] parses to an array. *)
Lemma parsePermissions_non_object_witness :
  perms_of_obj (parsePermissions (env := example_env) (Some "[true]"))
  = AllFalse.
Proof.
  apply (parsePermissions_non_object (env := example_env) "[true]"
           (JArr [JBool true])); [discriminate | reflexivity | discriminate].
Defined.

(** On the example data: the owner's service list, unfiltered and filtered
    by specialty 3. *)
Lemma getServices_visible_witness :
  Service.mk 2 1 3 true "Interior door" "EA" "180.00"
    ∈ getServices (env := example_env) example_db 1 10 "OWNER" (Some 3%Z)
  ∧ Service.mk 2 1 3 true "Interior door" "EA" "180.00"
    ∉ getServices (env := example_env) example_db 1 12 "USER" None.
Proof.
  split.
  - apply (getServices_visible (env := example_env) example_db 1 10 "OWNER").
    split; [simpl; right; left |]. split; [done |]. split; [done |].
    split; [vm_compute; do 2 right; left |]. by intros sid [= <-].
  - intros Hin.
    apply (getServices_visible (env := example_env) example_db 1 12 "USER")
      in Hin as (_ & _ & _ & Hin & _).
    change (3%Z ∈ [1; 2]%Z) in Hin.
    repeat (apply elem_of_cons in Hin as [Hin | Hin]; [discriminate |]).
    by apply elem_of_nil in Hin.
Defined.

(** The employee's list of the example data inside the owner's. *)
Lemma getJobs_sublist_witness :
  Job.mk 101 1 (Some 1%Z) "DRAFT" (Some 1%Z) ∈ jobs example_db.
Proof.
  apply (proj1 (proj2 (proj2 (proj2
    (getJobs_sublist (env := example_env) example_db 12 1 "USER"))))
    (Job.mk 101 1 (Some 1%Z) "DRAFT" (Some 1%Z))).
  rewrite example_user_jobs. left.
Defined.

(** Job 101 of the second example store: employee 14 is granted
    [canViewPrices] on the job but not by the company. *)
Lemma getJob_price_ceiling_witness :
  ∃ d, getJob (env := example_env) example_db2 101 14 "USER" 1 = Some d
       ∧ JobWithItems.items d ≠ []
       ∧ ∀ item, item ∈ JobWithItems.items d →
                 item !! "unitPrice" = Some (JStr "0")
                 ∧ item !! "lineTotal" = Some (JStr "0").
Proof.
  eexists. split; [vm_compute; reflexivity |]. split; [discriminate |].
  eapply (proj1 (getJob_price_ceiling (env := example_env) example_db2
                   101 14 1 "USER" _ ltac:(vm_compute; reflexivity)));
    [discriminate | discriminate | vm_compute; reflexivity].
Defined.

(** Employee 12 of the example data on job 103: the assignment stores no
    grant, so the effective permissions are all false. *)
Lemma getJob_permissions_capped_witness :
  ∃ d p, getJob (env := example_env) example_db 103 12 "USER" 1 = Some d
         ∧ JobWithItems.permissions d = Some p
         ∧ perms_le p
             (perms_of_obj
                (getCompanyUserPermissions (env := example_env) example_db 1 12)).
Proof.
  eexists _, _. split; [vm_compute; reflexivity |].
  split; [reflexivity |].
  eapply (getJob_permissions_capped (env := example_env) example_db
            103 12 1 "USER"); [vm_compute; reflexivity | reflexivity].
Defined.

(** * Users, memberships and sessions *)



Section UsersProps.
Context {env : Env}.
Variable db : Store.
Variable users : list User.t.
Variable toLowerCase : string → string.

Lemma memberEntry_Some cu m :
  memberEntry users cu = Some m →
  CompanyMember.companyId m = CompanyUser.companyId cu
  ∧ CompanyMember.userId m = CompanyUser.userId cu
  ∧ CompanyMember.role m = CompanyUser.role cu
  ∧ CompanyMember.isActive m = CompanyUser.isActive cu
  ∧ CompanyMember.permissions m = parsePermissions (CompanyUser.permissions cu)
  ∧ ∃ u, u ∈ users ∧ User.id u = CompanyUser.userId cu
         ∧ CompanyMember.username m = User.username u.
Proof.
  unfold memberEntry, getUserById.
  destruct (head (filter _ users)) as [u|] eqn:Hhead; [| done].
  intros [= <-]. simpl. apply head_filter_elem in Hhead as [Hin Hid].
  repeat split. by exists u.
Qed.

Lemma getAllCompanyUsers_entry companyId m :
  m ∈ getAllCompanyUsers db users companyId →
  CompanyMember.companyId m = companyId
  ∧ (∃ u, u ∈ users ∧ User.id u = CompanyMember.userId m
          ∧ User.username u = CompanyMember.username m)
  ∧ ∀ k, k ∈ permission_keys → is_Some (CompanyMember.permissions m !! k).
Proof.
  intros Hm. unfold getAllCompanyUsers in Hm.
  apply list_elem_of_omap in Hm as (cu & Hcu & Hm).
  apply list_elem_of_filter in Hcu as [Hc Hcu].
  apply memberEntry_Some in Hm
    as (Hmc & Hmu & _ & _ & Hperms & u & Hu & Hid & Hn).
  split; [congruence |].
  split; [exists u; split; [done |]; split; congruence |].
  intros k Hk. rewrite Hperms. by apply parsePermissions_has_key.
Qed.


(** X8. [searchCompanyUserByUsername] compares user names without regard
    to case and never leaves the company: a result is a member of the
    company asked for whose lower-cased name equals the lower-cased query,
    and a result exists whenever some member matches. *)
Theorem search_member_scoped (companyId : Z) (username : string) :
  (∀ m, searchCompanyUserByUsername db users toLowerCase companyId username
        = Some m →
        m ∈ getAllCompanyUsers db users companyId
        ∧ CompanyMember.companyId m = companyId
        ∧ toLowerCase (CompanyMember.username m) = toLowerCase username)
  ∧ (∀ m, m ∈ getAllCompanyUsers db users companyId →
          toLowerCase (CompanyMember.username m) = toLowerCase username →
          is_Some (searchCompanyUserByUsername db users toLowerCase
                     companyId username))
  ∧ ((∀ m, m ∈ getAllCompanyUsers db users companyId →
           toLowerCase (CompanyMember.username m) ≠ toLowerCase username) →
     searchCompanyUserByUsername db users toLowerCase companyId username
     = None).
Proof.
  unfold searchCompanyUserByUsername. split; [| split].
  - intros m Hhead. apply head_filter_elem in Hhead as [Hin Hname].
    split; [done |]. split; [| done].
    by apply getAllCompanyUsers_entry in Hin as [Hc _].
  - intros m Hin Hname. by eapply head_filter_is_Some.
  - intros Hnone. by apply head_filter_None.
Qed.

Lemma getUserCompanyId_Some userId c :
  getUserCompanyId db userId = Some c →
  ∃ cu, cu ∈ companyUsers db ∧ CompanyUser.userId cu = userId
        ∧ CompanyUser.companyId cu = c ∧ CompanyUser.isActive cu = true.
Proof.
  unfold getUserCompanyId.
  destruct (head (filter _ (companyUsers db))) as [cu|] eqn:Hhead; [| done].
  intros [= <-]. apply head_filter_elem in Hhead as [Hin [Hu Ha]].
  by exists cu.
Qed.

Lemma isUserInCompany_spec userId companyId :
  isUserInCompany db userId companyId = true
  ↔ ∃ cu, cu ∈ companyUsers db ∧ CompanyUser.userId cu = userId
          ∧ CompanyUser.companyId cu = companyId.
Proof.
  unfold isUserInCompany. split.
  - destruct (head (filter _ (companyUsers db))) as [cu|] eqn:Hhead; [| done].
    intros _. apply head_filter_elem in Hhead as [Hin [Hu Hc]]. by exists cu.
  - intros (cu & Hin & Hu & Hc).
    by destruct (head_filter_is_Some
                   (λ cu, CompanyUser.userId cu = userId
                          ∧ CompanyUser.companyId cu = companyId)
                   (companyUsers db) cu Hin (conj Hu Hc)) as [cu' ->].
Qed.

(** X9. [requireAuth] answers 401 exactly when the session has no user.
    When it lets the request through, the session keeps its user and role
    and has a company; a session that had none gets the company of an
    active membership of the user, and running the middleware again changes
    nothing.  It answers 403 when the user has no company and no active
    membership names one. *)
Theorem requireAuth_outcome (session : Session.t) :
  match requireAuth db session with
  | Next s' =>
      truthyZ (Session.userId s') = true
      ∧ Session.userId s' = Session.userId session
      ∧ Session.role s' = Session.role session
      ∧ truthyZ (Session.companyId s') = true
      ∧ (truthyZ (Session.companyId session) = true → s' = session)
      ∧ (truthyZ (Session.companyId session) = false →
         ∃ u c, Session.userId session = Some u
                ∧ Session.companyId s' = Some c
                ∧ getUserCompanyId db u = Some c
                ∧ isUserInCompany db u c = true)
      ∧ requireAuth db s' = Next s'
  | Reject status message =>
      (status = 401%Z ∧ truthyZ (Session.userId session) = false)
      ∨ (status = 403%Z
         ∧ truthyZ (Session.userId session) = true
         ∧ truthyZ (Session.companyId session) = false
         ∧ ∃ u, Session.userId session = Some u
                ∧ truthyZ (getUserCompanyId db u) = false)
  end.
Proof.
  unfold requireAuth.
  destruct (truthyZ (Session.userId session)) eqn:Huser; simpl; [| by left].
  destruct (Session.userId session) as [u|] eqn:Hu; [| done]. simpl.
  destruct (truthyZ (Session.companyId session)) eqn:Hcompany; simpl.
  { rewrite ?Hu, ?Huser, ?Hcompany. simpl.
    repeat split; auto; discriminate. }
  destruct (truthyZ (getUserCompanyId db u)) eqn:Hresolved; simpl.
  - rewrite ?Hresolved. simpl. simpl in Huser. rewrite Huser. simpl.
    split; [done |]. split; [done |]. split; [done |]. split; [done |].
    split; [intros [=] |]. split; [| done].
    intros _. destruct (getUserCompanyId db u) as [c|] eqn:Hc; [| done].
    exists u, c. split; [done |]. split; [done |]. split; [done |].
    apply getUserCompanyId_Some in Hc as (cu & Hin & Hcu & Hcc & _).
    apply isUserInCompany_spec. by exists cu.
  - right. split; [done |]. split; [done |]. split; [done |].
    by exists u.
Qed.

(** X10. The role gates: both answer 401 before anything else when the
    session has no user.  For a signed-in session [requireAdminOrOwner]
    lets ADMIN and OWNER through and nobody else, [requireSupport] lets
    SUPPORT, ADMIN and OWNER through and nobody else; so whoever passes the
    first passes the second, and neither changes the session. *)
Theorem role_gates (session : Session.t) :
  (truthyZ (Session.userId session) = false →
   requireAdminOrOwner session = Reject 401 "Not authenticated"
   ∧ requireSupport session = Reject 401 "Not authenticated")
  ∧ (truthyZ (Session.userId session) = true →
     (requireAdminOrOwner session = Next session
      ↔ Session.role session = Some "ADMIN"
        ∨ Session.role session = Some "OWNER")
     ∧ (requireSupport session = Next session
        ↔ Session.role session = Some "SUPPORT"
          ∨ Session.role session = Some "ADMIN"
          ∨ Session.role session = Some "OWNER"))
  ∧ (∀ s', requireAdminOrOwner session = Next s' →
           s' = session ∧ requireSupport session = Next session)
  ∧ (∀ s', requireSupport session = Next s' → s' = session).
Proof.
  unfold requireAdminOrOwner, requireSupport.
  destruct (truthyZ (Session.userId session)) eqn:Huser; simpl.
  - split; [done |].
    destruct (decide (Session.role session = Some "ADMIN")) as [Ha | Ha];
      destruct (decide (Session.role session = Some "OWNER")) as [Ho | Ho];
      destruct (decide (Session.role session = Some "SUPPORT")) as [Hs | Hs];
      rewrite ?(bool_decide_eq_true_2 _ Ha), ?(bool_decide_eq_false_2 _ Ha),
        ?(bool_decide_eq_true_2 _ Ho), ?(bool_decide_eq_false_2 _ Ho),
        ?(bool_decide_eq_true_2 _ Hs), ?(bool_decide_eq_false_2 _ Hs);
      simpl; (split; [intros _; split; split; try done; intuition congruence |]);
      split; intros s'; intros [=]; auto.
  - split; [done |]. split; [done |]. split; intros s' [=].
Qed.

(** X11. The [needsOnboarding] flag of the login and session answers: it
    is always set for SUPPORT and for a user without a company; for an
    employee it is set exactly when no specialty is assigned to them in the
    company; for an OWNER it is cleared exactly when the company's trade has
    a specialty. *)
Theorem needsOnboarding_cases (userId : Z) (role : string)
    (companyId : option Z) :
  needsOnboarding db userId "SUPPORT" companyId = true
  ∧ (truthyZ companyId = false →
     needsOnboarding db userId role companyId = true)
  ∧ (∀ c, companyId = Some c → c ≠ 0%Z →
          role ≠ "SUPPORT" → role ≠ "OWNER" → role ≠ "ADMIN" →
          (needsOnboarding db userId role companyId = true
           ↔ ∀ r, r ∈ userSpecialties db →
                  ¬ (UserSpecialty.userId r = userId
                     ∧ UserSpecialty.companyId r = c)))
  ∧ (∀ c, companyId = Some c → c ≠ 0%Z →
          (needsOnboarding db userId "OWNER" companyId = false
           ↔ ∃ s, s ∈ specialties db
                  ∧ Specialty.tradeId s = getCompanyTradeId db c)).
Proof.
  split; [| split; [| split]].
  - unfold needsOnboarding. destruct companyId as [c|]; [| done].
    by destruct (truthyZ (Some c)).
  - unfold needsOnboarding. destruct companyId as [c|]; [| done].
    by intros ->.
  - intros c -> Hc Hs Ho Ha. unfold needsOnboarding. simpl.
    rewrite (bool_decide_eq_false_2 _ Hc). simpl.
    rewrite allowed_other by done. rewrite length_zero_nil. split.
    + intros Hnil r Hr [Hu Hco].
      assert (UserSpecialty.specialtyId r ∈ assignedSpecialtyIds db userId c)
        as Hin by (apply elem_of_assignedSpecialtyIds; by exists r).
      rewrite Hnil in Hin. by apply elem_of_nil in Hin.
    + intros Hnone. unfold assignedSpecialtyIds.
      rewrite filter_none; [done |]. intros r Hr Hboth. by apply (Hnone r).
  - intros c -> Hc. unfold needsOnboarding. simpl.
    rewrite (bool_decide_eq_false_2 _ Hc). simpl.
    rewrite allowed_owner, bool_decide_eq_false. split.
    + intros Hlen.
      destruct (tradeSpecialtyIds db (getCompanyTradeId db c)) as [|x l] eqn:Hl;
        [done |].
      assert (x ∈ tradeSpecialtyIds db (getCompanyTradeId db c)) as Hx
        by (rewrite Hl; left).
      apply elem_of_tradeSpecialtyIds in Hx as (s & Hs & _ & Ht). by exists s.
    + intros (s & Hs & Ht) Hlen. apply length_zero_iff_nil in Hlen.
      assert (Specialty.id s ∈ tradeSpecialtyIds db (getCompanyTradeId db c))
        as Hin by (apply elem_of_tradeSpecialtyIds; by exists s).
      rewrite Hlen in Hin. by apply elem_of_nil in Hin.
Qed.

End UsersProps.

(** The session of user 12 of the example data, before its first request. *)
Lemma requireAuth_outcome_witness :
  requireAuth example_db (Session.mk (Some 12%Z) (Some "USER") None)
  = Next (Session.mk (Some 12%Z) (Some "USER") (Some 1%Z))
  ∧ isUserInCompany example_db 12 1 = true.
Proof.
  pose proof (requireAuth_outcome example_db
                (Session.mk (Some 12%Z) (Some "USER") None)) as Hout.
  change (requireAuth example_db (Session.mk (Some 12%Z) (Some "USER") None))
    with (Next (Session.mk (Some 12%Z) (Some "USER") (Some 1%Z))) in Hout.
  split; [reflexivity |].
  destruct Hout as (_ & _ & _ & _ & _ & Hnew & _).
  destruct (Hnew eq_refl) as (u & c & [= <-] & [= <-] & _ & Hin). exact Hin.
Defined.

(** An administrator passes both gates. *)
Lemma role_gates_witness :
  requireSupport (Session.mk (Some 11%Z) (Some "ADMIN") (Some 1%Z))
  = Next (Session.mk (Some 11%Z) (Some "ADMIN") (Some 1%Z)).
Proof.
  apply (proj1 (proj2 (proj2
    (role_gates (Session.mk (Some 11%Z) (Some "ADMIN") (Some 1%Z)))))
    (Session.mk (Some 11%Z) (Some "ADMIN") (Some 1%Z))).
  reflexivity.
Defined.

(** Employee 12 of the example data has specialties; employee 14 of the
    second store has none. *)
Lemma needsOnboarding_cases_witness :
  needsOnboarding (env := example_env) example_db 12 "USER" (Some 1%Z) = false
  ∧ needsOnboarding (env := example_env) example_db2 14 "USER" (Some 1%Z)
    = true.
Proof.
  split; [reflexivity |].
  apply (proj1 (proj2 (proj2
    (needsOnboarding_cases (env := example_env) example_db2 14 "USER"
       (Some 1%Z)))) 1%Z eq_refl);
    [discriminate.. |].
  intros r Hr [Hu _]. simpl in Hr.
  repeat (apply elem_of_cons in Hr as [-> | Hr]; [discriminate |]).
  by apply elem_of_nil in Hr.
Defined.


(** Searching for CARLOS finds the member named Carlos. *)
Lemma search_member_scoped_witness :
  ∃ m, searchCompanyUserByUsername (env := example_env) example_db2
         example_users lower 1 "CARLOS" = Some m
       ∧ CompanyMember.userId m = 14%Z
       ∧ CompanyMember.companyId m = 1%Z.
Proof.
  eexists. split; [vm_compute; reflexivity |]. split; [reflexivity |].
  eapply (proj1 (search_member_scoped (env := example_env) example_db2
                   example_users lower 1 "CARLOS")).
  vm_compute. reflexivity.
Defined.

(** * Updates *)

Lemma filter_fmap_stable {A} (P : A → Prop) `{∀ x, Decision (P x)}
    (f : A → A) (l : list A) :
  (∀ x, P (f x) ↔ P x) → filter P (f <$> l) = f <$> filter P l.
Proof.
  intros Hstable. induction l as [|x l IH]; [done |].
  rewrite fmap_cons, !filter_cons.
  destruct (decide (P x)) as [HP | HP].
  - rewrite decide_True by (by apply Hstable). by rewrite fmap_cons, IH.
  - rewrite decide_False by (by rewrite Hstable). done.
Qed.

Lemma head_fmap {A B} (f : A → B) (l : list A) :
  head (f <$> l) = f <$> head l.
Proof. by destruct l. Qed.

(** The first row selected by a predicate that an update keeps. *)
Lemma head_filter_fmap_stable {A} (P : A → Prop) `{∀ x, Decision (P x)}
    (f : A → A) (l : list A) :
  (∀ x, P (f x) ↔ P x) → head (filter P (f <$> l)) = f <$> head (filter P l).
Proof. intros Hstable. by rewrite filter_fmap_stable, head_fmap. Qed.

Section ActiveProps.
Context {env : Env}.
Variable db : Store.
Variable users : list User.t.



End ActiveProps.


Lemma NoDup_fmap_eq {A B} (f : A → B) (l : list A) x y :
  NoDup (f <$> l) → x ∈ l → y ∈ l → f x = f y → x = y.
Proof.
  induction l as [|z l IH]; intros Hnd Hx Hy Hf.
  { by apply elem_of_nil in Hx. }
  rewrite fmap_cons in Hnd. apply NoDup_cons in Hnd as [Hz Hnd].
  apply elem_of_cons in Hx as [-> | Hx]; apply elem_of_cons in Hy as [-> | Hy].
  - done.
  - destruct Hz. rewrite Hf. by apply list_elem_of_fmap_2.
  - destruct Hz. rewrite <- Hf. by apply list_elem_of_fmap_2.
  - by apply IH.
Qed.

Lemma perms_obj_keys p k :
  is_Some (perms_obj p !! k) → k ∈ permission_keys.
Proof.
  unfold perms_obj, permission_keys. intros [v Hv].
  repeat (rewrite lookup_insert in Hv; case_decide; [subst; set_solver |]).
  by rewrite lookup_empty in Hv.
Qed.

Section PermissionUpdateProps.
Context {env : Env}.
Variable JSON_stringify : jsobj → string.

(** Reading back a stored object that has the five flags. *)
Lemma parsePermissions_stringify (o : jsobj) members :
  (∀ k, k ∈ permission_keys → is_Some (o !! k)) →
  JSON_stringify o ≠ "" →
  JSON_parse (JSON_stringify o) = Normal (JObj members) →
  members_to_obj members = o →
  parsePermissions (Some (JSON_stringify o)) = o.
Proof.
  intros Hkeys Hne Hparse Hmembers.
  rewrite (parsePermissions_valid _ _ Hne Hparse). simpl. rewrite Hmembers.
  apply map_eq. intros k. rewrite spread_lookup.
  destruct (o !! k) as [v|] eqn:Hk; [done |].
  destruct (perms_obj DEFAULT_EMPLOYEE_PERMISSIONS !! k) as [v|] eqn:Hb;
    [| done].
  assert (k ∈ permission_keys) as Hin by (apply (perms_obj_keys DEFAULT_EMPLOYEE_PERMISSIONS); eauto).
  apply Hkeys in Hin as [v' Hv']. congruence.
Qed.

Lemma spread_has_keys (existing partial : jsobj) :
  (∀ k, k ∈ permission_keys → is_Some (existing !! k)) →
  ∀ k, k ∈ permission_keys → is_Some (spread existing partial !! k).
Proof.
  intros Hkeys k Hk. rewrite spread_lookup.
  destruct (partial !! k); [eauto | by apply Hkeys].
Qed.

(** X13. [updateCompanyUserPermissions] merges a partial update over the
    stored permissions of the membership: when [JSON.parse] reads back what
    [JSON.stringify] wrote, the permissions of (company, user) afterwards
    are the old ones with the given flags replaced, a flag the update does
    not mention keeping its value.  Without a membership row nothing
    changes; with unique row ids, the permissions of every other
    (company, user) are unchanged. *)
Theorem updateCompanyUserPermissions_merge (db : Store) (companyId userId : Z)
    (permissions : jsobj) :
  let existing := getCompanyUserPermissions db companyId userId in
  let updated := spread existing permissions in
  let db' :=
    updateCompanyUserPermissions JSON_stringify db companyId userId
      permissions in
  ((∀ cu, cu ∈ companyUsers db →
          ¬ (CompanyUser.companyId cu = companyId
             ∧ CompanyUser.userId cu = userId)) →
   db' = db)
  ∧ (∀ cu members,
       cu ∈ companyUsers db → CompanyUser.companyId cu = companyId →
       CompanyUser.userId cu = userId →
       JSON_stringify updated ≠ "" →
       JSON_parse (JSON_stringify updated) = Normal (JObj members) →
       members_to_obj members = updated →
       getCompanyUserPermissions db' companyId userId = updated
       ∧ ∀ k, (∀ v, permissions !! k = Some v →
                    getCompanyUserPermissions db' companyId userId !! k
                    = Some v)
              ∧ (permissions !! k = None →
                 getCompanyUserPermissions db' companyId userId !! k
                 = existing !! k))
  ∧ (NoDup (CompanyUser.id <$> companyUsers db) →
     ∀ c u, ¬ (c = companyId ∧ u = userId) →
            getCompanyUserPermissions db' c u
            = getCompanyUserPermissions db c u).
Proof.
  intros existing updated db'. subst existing updated db'.
  unfold updateCompanyUserPermissions.
  split; [| split].
  - intros Hnone. by rewrite head_filter_None.
  - intros cu0 members Hin Hc Hu Hne Hparse Hmembers.
    destruct (head_filter_is_Some
                (λ cu, CompanyUser.companyId cu = companyId
                       ∧ CompanyUser.userId cu = userId)
                (companyUsers db) cu0 Hin (conj Hc Hu)) as [cu Hcu].
    assert (getCompanyUserPermissions db companyId userId
            = parsePermissions (CompanyUser.permissions cu)) as Hexisting
      by (unfold getCompanyUserPermissions; by rewrite Hcu).
    rewrite Hexisting in *. rewrite Hcu.
    set (updated := spread (parsePermissions (CompanyUser.permissions cu))
                           permissions) in *.
    assert (getCompanyUserPermissions
              (with_companyUsers db
                 ((λ row,
                     if decide (CompanyUser.id row = CompanyUser.id cu)
                     then CompanyUser.mk (CompanyUser.id row)
                            (CompanyUser.companyId row)
                            (CompanyUser.userId row) (CompanyUser.role row)
                            (CompanyUser.isActive row)
                            (Some (JSON_stringify updated))
                     else row) <$> companyUsers db))
              companyId userId = updated) as Hread.
    { unfold getCompanyUserPermissions at 1. simpl.
      rewrite head_filter_fmap_stable by (intros row; by case_decide).
      rewrite Hcu. simpl. rewrite decide_True by done. simpl.
      apply (parsePermissions_stringify updated members); try done.
      apply spread_has_keys. intros k Hk. by apply parsePermissions_has_key. }
    rewrite Hread. split; [done |]. intros k. unfold updated.
    rewrite spread_lookup. split.
    + by intros v ->.
    + by intros ->.
  - intros Hnd c u Hother.
    destruct (head (filter _ (companyUsers db))) as [cu|] eqn:Hcu; [| done].
    apply head_filter_elem in Hcu as [Hin [Hc Hu]].
    unfold getCompanyUserPermissions at 1. simpl.
    rewrite head_filter_fmap_stable by (intros row; by case_decide).
    unfold getCompanyUserPermissions.
    destruct (head (filter _ (companyUsers db))) as [cu'|] eqn:Hcu'; [| done].
    apply head_filter_elem in Hcu' as [Hin' [Hc' Hu']]. simpl.
    case_decide as Hid; [| done].
    assert (cu' = cu) as -> by (by eapply (NoDup_fmap_eq CompanyUser.id)).
    destruct Hother. split; congruence.
Qed.
End PermissionUpdateProps.

(** Granting [canEditPrices] to employee 12, who already has
    [canViewPrices]. *)
Lemma updateCompanyUserPermissions_merge_witness :
  getCompanyUserPermissions (env := example_env2)
    (updateCompanyUserPermissions (env := example_env2) stringify_perms
       example_db 1 12 (<["canEditPrices" := JBool true]> ∅)) 1 12
  = perms_obj (mkPermissions false false true true false).
Proof.
  refine (eq_trans
            (proj1 (proj1 (proj2 (updateCompanyUserPermissions_merge
                                    (env := example_env2) stringify_perms
                                    example_db 1 12
                                    (<["canEditPrices" := JBool true]> ∅)))
                      (CompanyUser.mk 3 1 12 "USER" true (Some text_viewPrices))
                      (perms_members (mkPermissions false false true true false))
                      _ _ _ _ _ _)) _).
  - do 2 apply list_elem_of_further. apply list_elem_of_here.
  - reflexivity.
  - reflexivity.
  - vm_compute. discriminate.
  - vm_compute. reflexivity.
  - vm_compute. reflexivity.
  - vm_compute. reflexivity.
Defined.

Section AssignmentUpdateProps.
Context {env : Env}.
Variable JSON_stringify : jsobj → string.

(** X14. [updateAssignmentPermissions] composed with [getJob]: after a
    partial update of the assignment of (job, user), when [JSON.parse]
    reads back what [JSON.stringify] wrote, an employee who could open the
    job still opens it, and the effective permissions returned are the cap
    of the merged assignment permissions by the unchanged company
    permissions, the item prices being shown or removed by the capped
    [canViewPrices].  Without an assignment nothing changes; owners' and
    admins' views are unchanged, and with unique row ids so is the detail
    of every other (job, user). *)
Theorem updateAssignmentPermissions_getJob (db : Store)
    (jobId userId companyId : Z) (permissions : jsobj) :
  let db' :=
    updateAssignmentPermissions JSON_stringify db jobId userId permissions in
  ((∀ a, a ∈ jobAssignments db →
         ¬ (JobAssignment.jobId a = jobId ∧ JobAssignment.userId a = userId)) →
   db' = db)
  ∧ (∀ a members role d,
       a ∈ jobAssignments db → JobAssignment.jobId a = jobId →
       JobAssignment.userId a = userId →
       (∀ a', a' ∈ jobAssignments db → JobAssignment.jobId a' = jobId →
              JobAssignment.userId a' = userId → a' = a) →
       let updated :=
         spread (parsePermissions (JobAssignment.permissions a)) permissions in
       JSON_stringify updated ≠ "" →
       JSON_parse (JSON_stringify updated) = Normal (JObj members) →
       members_to_obj members = updated →
       role ≠ "OWNER" → role ≠ "ADMIN" →
       getJob db jobId userId role companyId = Some d →
       let companyPerms := getCompanyUserPermissions db companyId userId in
       let perms :=
         capPermissions (perms_of_obj updated) (perms_of_obj companyPerms) in
       let rows :=
         JobItem.row <$>
           filter (λ it, JobItem.jobId it = jobId) (jobItems db) in
       getJob db' jobId userId role companyId
       = Some (JobWithItems.mk (JobWithItems.job d)
                 (if canViewPrices perms then rows else redactItem <$> rows)
                 "USER" (Some perms) (Some companyPerms)))
  ∧ (∀ id u role,
       role = "OWNER" ∨ role = "ADMIN" ∨ role = "SUPPORT" →
       getJob db' id u role companyId = getJob db id u role companyId)
  ∧ (NoDup (JobAssignment.id <$> jobAssignments db) →
     ∀ id u role, ¬ (id = jobId ∧ u = userId) →
                  getJob db' id u role companyId
                  = getJob db id u role companyId).
Proof.
  intros db'. subst db'. unfold updateAssignmentPermissions.
  split; [| split; [| split]].
  - intros Hnone. by rewrite head_filter_None.
  - intros a members role d Hin Hj Hu Huniq Hne Hparse Hmembers Ho Ha Hget.
    set (updated := spread (parsePermissions (JobAssignment.permissions a))
                           permissions) in *.
    set (companyPerms := getCompanyUserPermissions db companyId userId).
    set (perms := capPermissions (perms_of_obj updated)
                                 (perms_of_obj companyPerms)).
    set (rows := JobItem.row <$>
                   filter (λ it, JobItem.jobId it = jobId) (jobItems db)).
    assert (head (filter (λ a, JobAssignment.jobId a = jobId
                               ∧ JobAssignment.userId a = userId)
                         (jobAssignments db)) = Some a) as Hhead.
    { destruct (head_filter_is_Some
                  (λ a, JobAssignment.jobId a = jobId
                        ∧ JobAssignment.userId a = userId)
                  (jobAssignments db) a Hin (conj Hj Hu)) as [a0 Ha0].
      rewrite Ha0. f_equal.
      apply head_filter_elem in Ha0 as [Hin0 [Hj0 Hu0]]. by apply Huniq. }
    rewrite Hhead.
    apply getJob_Some in Hget as (Hs & its & Hfind & _).
    pose proof (findJob_Some _ _ _ _ _ Hfind) as (_ & _ & _ & Hits).
    unfold getJob.
    rewrite (proj2 (String.eqb_neq role "SUPPORT")) by done.
    change (findJob (with_jobAssignments db ?l) jobId companyId)
      with (findJob db jobId companyId).
    rewrite Hfind.
    rewrite (proj2 (String.eqb_neq role "OWNER")) by done.
    rewrite (proj2 (String.eqb_neq role "ADMIN")) by done.
    cbn [orb jobAssignments with_jobAssignments].
    rewrite head_filter_fmap_stable by (intros row; by case_decide).
    rewrite Hhead. cbn [fmap option_fmap option_map].
    rewrite decide_True by done. cbn [JobAssignment.permissions].
    change (getCompanyUserPermissions (with_jobAssignments db ?l) companyId
              userId) with companyPerms.
    rewrite (parsePermissions_stringify JSON_stringify _ members);
      [| by apply spread_has_keys; intros k Hk;
            apply parsePermissions_has_key | done..].
    fold updated. fold perms. subst rows. rewrite <- Hits.
    by destruct (canViewPrices perms).
  - intros id u role Hrole.
    destruct (head (filter _ (jobAssignments db))) as [a|]; [| done].
    unfold getJob.
    change (findJob (with_jobAssignments db ?l) id companyId)
      with (findJob db id companyId).
    destruct Hrole as [-> | [-> | ->]]; try done;
      by destruct (findJob db id companyId) as [[j its]|].
  - intros Hnd id u role Hother.
    destruct (head (filter _ (jobAssignments db))) as [a|] eqn:Ha; [| done].
    apply head_filter_elem in Ha as [Hin [Hj Hu]].
    unfold getJob.
    change (findJob (with_jobAssignments db ?l) id companyId)
      with (findJob db id companyId).
    change (getCompanyUserPermissions (with_jobAssignments db ?l) companyId u)
      with (getCompanyUserPermissions db companyId u).
    cbn [jobAssignments with_jobAssignments].
    rewrite head_filter_fmap_stable by (intros row; by case_decide).
    destruct (head (filter _ (jobAssignments db))) as [a'|] eqn:Ha'; [| done].
    apply head_filter_elem in Ha' as [Hin' [Hj' Hu']].
    cbn [fmap option_fmap option_map].
    case_decide as Hid; [| done].
    assert (a' = a) as -> by (by eapply (NoDup_fmap_eq JobAssignment.id)).
    destruct Hother. split; congruence.
Qed.
End AssignmentUpdateProps.

(** Employee 14 holds no company permission: granting [canEditPrices] on
    the assignment to job 101 leaves every effective flag off and the
    prices of the item at "0". *)
Lemma updateAssignmentPermissions_getJob_witness :
  ∃ d,
    getJob (env := example_env2)
      (updateAssignmentPermissions (env := example_env2) stringify_perms
         example_db2 101 14 (<["canEditPrices" := JBool true]> ∅))
      101 14 "USER" 1 = Some d
    ∧ JobWithItems.permissions d = Some AllFalse
    ∧ JobWithItems.items d = [example_item "0" "0"].
Proof.
  eexists. split.
  - refine (proj1 (proj2 (updateAssignmentPermissions_getJob
                            (env := example_env2) stringify_perms
                            example_db2 101 14 1
                            (<["canEditPrices" := JBool true]> ∅)))
              (JobAssignment.mk 2 101 14 (Some text_viewPrices))
              (perms_members (mkPermissions false false true true false))
              "USER" _ _ _ _ _ _ _ _ _ _ _).
    + apply list_elem_of_further, list_elem_of_here.
    + reflexivity.
    + reflexivity.
    + intros a' Hin Hj _. apply list_elem_of_In in Hin. simpl in Hin.
      destruct Hin as [<- | [<- | []]]; [discriminate Hj | reflexivity].
    + vm_compute. discriminate.
    + vm_compute. reflexivity.
    + vm_compute. reflexivity.
    + discriminate.
    + discriminate.
    + vm_compute. reflexivity.
  - split; vm_compute; reflexivity.
Defined.

(** ** Specialty assignments *)

Lemma filter_all {A} (P : A → Prop) `{∀ x, Decision (P x)} (l : list A) :
  (∀ x, x ∈ l → P x) → filter P l = l.
Proof.
  induction l as [|x l IH]; intros Hall; [done |].
  rewrite filter_cons, decide_True by (apply Hall; left).
  rewrite IH; [done |]. intros y Hy. apply Hall. by right.
Qed.

Lemma assigned_after_replace (db' : Store) (old : list UserSpecialty.t)
    (userId companyId : Z) (rows : list UserSpecialty.t) :
  userSpecialties db'
  = (filter (λ r, ¬ (UserSpecialty.userId r = userId
                     ∧ UserSpecialty.companyId r = companyId)) old
     ++ rows)%list →
  (∀ r, r ∈ rows → UserSpecialty.userId r = userId
                   ∧ UserSpecialty.companyId r = companyId) →
  assignedSpecialtyIds db' userId companyId
  = UserSpecialty.specialtyId <$> rows.
Proof.
  intros Hdb Hrows. unfold assignedSpecialtyIds. rewrite Hdb.
  rewrite filter_app, filter_none, (filter_all _ rows); [done.. |].
  intros r Hr. apply list_elem_of_filter in Hr. tauto.
Qed.

Lemma assigned_other_after_replace (db db' : Store) (userId companyId : Z)
    (rows : list UserSpecialty.t) (u c : Z) :
  userSpecialties db'
  = (filter (λ r, ¬ (UserSpecialty.userId r = userId
                     ∧ UserSpecialty.companyId r = companyId))
            (userSpecialties db)
     ++ rows)%list →
  ¬ (u = userId ∧ c = companyId) →
  (∀ r, r ∈ rows → UserSpecialty.userId r = userId
                   ∧ UserSpecialty.companyId r = companyId) →
  assignedSpecialtyIds db' u c = assignedSpecialtyIds db u c.
Proof.
  intros Hdb Hother Hrows. unfold assignedSpecialtyIds. rewrite Hdb.
  rewrite filter_app, (filter_none _ rows), app_nil_r.
  - rewrite list_filter_filter. f_equal. apply list_filter_iff.
    intros r. split; [tauto |]. intros [Hu Hc]. split; [done |].
    intros [Hu' Hc']. apply Hother. split; congruence.
  - intros r Hr [Hu Hc]. apply Hrows in Hr as [Hu' Hc'].
    apply Hother. split; congruence.
Qed.

Lemma inserted_rows_spec (userId companyId : Z) (specialtyIds : list Z) r :
  r ∈ (λ specialtyId, UserSpecialty.mk companyId userId specialtyId)
        <$> specialtyIds →
  UserSpecialty.userId r = userId ∧ UserSpecialty.companyId r = companyId.
Proof. intros (s & -> & _)%list_elem_of_fmap. done. Qed.

Lemma inserted_rows_ids (userId companyId : Z) (specialtyIds : list Z) :
  UserSpecialty.specialtyId
    <$> ((λ specialtyId, UserSpecialty.mk companyId userId specialtyId)
           <$> specialtyIds)
  = specialtyIds.
Proof. rewrite <- list_fmap_compose. apply list_fmap_id. Qed.

Section SpecialtyUpdateProps.
Context {env : Env}.
Variable accepts : Store → list UserSpecialty.t → bool.

(** What [setUserSpecialties] leaves in the store, by outcome. *)
Lemma setUserSpecialties_assigned (db : Store) (userId companyId : Z)
    (specialtyIds : list Z) :
  let res := setUserSpecialties accepts db userId companyId specialtyIds in
  (res.2 = Normal () →
   assignedSpecialtyIds res.1 userId companyId = specialtyIds)
  ∧ (res.2 = Throw →
     specialtyIds ≠ [] ∧ assignedSpecialtyIds res.1 userId companyId = [])
  ∧ (∀ u c, ¬ (u = userId ∧ c = companyId) →
            assignedSpecialtyIds res.1 u c = assignedSpecialtyIds db u c)
  ∧ specialties res.1 = specialties db
  ∧ companies res.1 = companies db
  ∧ companyUsers res.1 = companyUsers db.
Proof.
  intros res. subst res. unfold setUserSpecialties.
  assert (∀ r : UserSpecialty.t, r ∈ [] →
            UserSpecialty.userId r = userId
            ∧ UserSpecialty.companyId r = companyId) as Hempty
    by (intros r Hr; by apply elem_of_nil in Hr).
  case_bool_decide as Hlen.
  - destruct (accepts _ _); simpl.
    + split; [| split; [| split]]; [| done | | done].
      * intros _.
        erewrite (assigned_after_replace _ (userSpecialties db));
          [apply inserted_rows_ids | reflexivity | apply inserted_rows_spec].
      * intros u c Hother.
        eapply assigned_other_after_replace;
          [reflexivity | done | apply inserted_rows_spec].
    + split; [done |]. split; [| split]; [| | done].
      * intros _. split; [by destruct specialtyIds; simpl in Hlen; [lia |] |].
        by erewrite (assigned_after_replace _ (userSpecialties db) _ _ []);
          [| simpl; by rewrite app_nil_r |].
      * intros u c Hother.
        by eapply (assigned_other_after_replace db _ userId companyId []);
          [simpl; by rewrite app_nil_r | |].
  - simpl. split; [| split; [| split]]; [| done | | done].
    + intros _. destruct specialtyIds; [| simpl in Hlen; lia].
      by erewrite (assigned_after_replace _ (userSpecialties db) _ _ []);
        [| simpl; by rewrite app_nil_r |].
    + intros u c Hother.
      by eapply (assigned_other_after_replace db _ userId companyId []);
        [simpl; by rewrite app_nil_r | |].
Qed.

(** X15. [setUserSpecialties] replaces the specialty assignments of
    (user, company): when the statement sequence succeeds the user is
    assigned exactly the given ids (so an employee's allowed specialties
    are these ids, and an empty list clears them); when the [INSERT] is
    refused the earlier [DELETE] stays, leaving the user with no
    assignment.  The assignments of every other (user, company) and what an
    OWNER is allowed are unchanged in either case. *)
Theorem setUserSpecialties_effect (db : Store) (userId companyId : Z)
    (specialtyIds : list Z) :
  let res := setUserSpecialties accepts db userId companyId specialtyIds in
  (res.2 = Normal () →
   assignedSpecialtyIds res.1 userId companyId ≡ₚ specialtyIds
   ∧ ∀ role, role ≠ "SUPPORT" → role ≠ "OWNER" → role ≠ "ADMIN" →
             getAllowedSpecialtyIds res.1 userId companyId role
             ≡ₚ specialtyIds)
  ∧ (res.2 = Throw →
     specialtyIds ≠ []
     ∧ ∀ role, role ≠ "OWNER" → role ≠ "ADMIN" →
               getAllowedSpecialtyIds res.1 userId companyId role = [])
  ∧ (∀ u c, ¬ (u = userId ∧ c = companyId) →
            assignedSpecialtyIds res.1 u c = assignedSpecialtyIds db u c)
  ∧ (∀ u c, getAllowedSpecialtyIds res.1 u c "OWNER"
            = getAllowedSpecialtyIds db u c "OWNER").
Proof.
  intros res.
  destruct (setUserSpecialties_assigned db userId companyId specialtyIds)
    as (Hok & Hthrow & Hother & Hspecs & Hcos & _).
  fold res in Hok, Hthrow, Hother, Hspecs, Hcos.
  split; [| split; [| split]].
  - intros Hres. rewrite (Hok Hres). split; [done |].
    intros role Hs Ho Ha. by rewrite allowed_other, (Hok Hres).
  - intros Hres. destruct (Hthrow Hres) as [Hne Hnil]. split; [done |].
    intros role Ho Ha.
    destruct (decide (role = "SUPPORT")) as [-> | Hs]; [done |].
    by rewrite allowed_other.
  - done.
  - intros u c. rewrite !allowed_owner.
    unfold tradeSpecialtyIds, getCompanyTradeId. by rewrite Hspecs, Hcos.
Qed.
End SpecialtyUpdateProps.

(** Employee 12 is reassigned from stairs and decks to doors and windows. *)
Lemma setUserSpecialties_effect_witness :
  getAllowedSpecialtyIds (env := example_env)
    (setUserSpecialties example_accepts example_db 12 1 [3; 4]%Z).1
    12 1 "USER" ≡ₚ [3; 4]%Z.
Proof.
  refine (proj2 (proj1 (setUserSpecialties_effect (env := example_env)
                          example_accepts example_db 12 1 [3; 4]%Z) _)
            "USER" _ _ _).
  - vm_compute. reflexivity.
  - discriminate.
  - discriminate.
  - discriminate.
Defined.

Lemma elem_of_getSpecialties (db : Store) (tradeId : option Z) s :
  s ∈ getSpecialties db tradeId
  ↔ s ∈ specialties db
    ∧ (truthyZ tradeId = true → Some (Specialty.tradeId s) = tradeId).
Proof.
  unfold getSpecialties.
  destruct (truthyZ tradeId); rewrite merge_sort_Permutation.
  - rewrite list_elem_of_filter. tauto.
  - split; [by intros Hs | tauto].
Qed.

Lemma set_find_Some (ids : list Z) (v : json) (id : Z) :
  set_find ids v = Some id →
  id ∈ ids ∧ ∃ x, v = JNum x ∧ PrimFloat.eqb (number_of_Z id) x = true.
Proof.
  destruct v; try done. simpl. intros Hhead.
  apply head_filter_elem in Hhead as [Hin Heq]. eauto.
Qed.

Lemma omap_set_find (ids : list Z) (elems : list json) :
  forallb (set_has ids) elems = true →
  Forall2 (λ v id, set_find ids v = Some id) elems (omap (set_find ids) elems).
Proof.
  induction elems as [|v elems IH]; simpl; [constructor |].
  intros [Hv Hrest]%andb_true_iff.
  apply bool_decide_eq_true in Hv as [id Hid]. rewrite Hid.
  constructor; [done | by apply IH].
Qed.

Section PutSpecialtiesProps.
Context {env : Env}.
Variable accepts : Store → list UserSpecialty.t → bool.
Variable users : list User.t.

(** X16. The handler of [PUT /api/admin/users/:userId/specialties]: a body
    whose [specialtyIds] is not an array is answered 400 before anything
    else, and a target without an active membership row in the caller's
    company is answered 404; the only statuses are 404, 400 and 200, and on
    404 and 400 the store is unchanged.  When the [INSERT] is refused the
    handler throws after the [DELETE]: the target is left without any
    assignment.  On 200 the elements of the array are numbers equal to ids,
    the target is an active member and is assigned exactly these ids, each
    the id of an existing specialty and, when the company's row has a
    trade, of a specialty of that trade: what the employee is then allowed
    is within what an OWNER of the company is allowed. *)
Theorem putUserSpecialties_outcome (db : Store) (companyId targetUserId : Z)
    (body : option json) :
  let res := putUserSpecialties accepts users db companyId targetUserId body in
  let company (co : Company.t) :=
    co ∈ companies db ∧ Company.id co = companyId
    ∧ (∀ co', co' ∈ companies db → Company.id co' = companyId → co' = co)
    ∧ Company.tradeId co ≠ 0%Z in
  ((∀ elems, body ≠ Some (JArr elems)) →
   res = (db, Normal (400%Z, "specialtyIds must be an array")))
  ∧ (∀ elems, body = Some (JArr elems) →
       (∀ cu, cu ∈ companyUsers db →
              ¬ (CompanyUser.companyId cu = companyId
                 ∧ CompanyUser.userId cu = targetUserId
                 ∧ CompanyUser.isActive cu = true)) →
       res = (db, Normal (404%Z, "User not in your company")))
  ∧ (∀ status message,
       res.2 = Normal (status, message) →
       (status = 404 ∨ status = 400 ∨ status = 200)%Z
       ∧ (status ≠ 200%Z → res.1 = db))
  ∧ (res.2 = Throw →
     ∃ elems, body = Some (JArr elems) ∧ elems ≠ []
              ∧ assignedSpecialtyIds res.1 targetUserId companyId = []
              ∧ ∀ u c, ¬ (u = targetUserId ∧ c = companyId) →
                       assignedSpecialtyIds res.1 u c
                       = assignedSpecialtyIds db u c)
  ∧ (∀ message,
       res.2 = Normal (200%Z, message) →
       ∃ elems ids,
         body = Some (JArr elems)
         ∧ Forall2 (λ v id, ∃ x, v = JNum x
                                 ∧ PrimFloat.eqb (number_of_Z id) x = true)
                   elems ids
         ∧ (∃ cu, cu ∈ companyUsers db
                  ∧ CompanyUser.companyId cu = companyId
                  ∧ CompanyUser.userId cu = targetUserId
                  ∧ CompanyUser.isActive cu = true)
         ∧ assignedSpecialtyIds res.1 targetUserId companyId ≡ₚ ids
         ∧ (∀ u c, ¬ (u = targetUserId ∧ c = companyId) →
                   assignedSpecialtyIds res.1 u c
                   = assignedSpecialtyIds db u c)
         ∧ (∀ id, id ∈ ids →
                  ∃ s, s ∈ specialties db ∧ Specialty.id s = id
                       ∧ ∀ co, company co →
                               Specialty.tradeId s = Company.tradeId co)
         ∧ (∀ co, company co →
              ∀ u role id,
                role ≠ "SUPPORT" → role ≠ "OWNER" → role ≠ "ADMIN" →
                id ∈ getAllowedSpecialtyIds res.1 targetUserId companyId role →
                id ∈ getAllowedSpecialtyIds res.1 u companyId "OWNER")).
Proof.
  intros res company. subst res company. cbv beta.
  unfold putUserSpecialties.
  destruct body as [[| | | | elems |]|];
    try (split; [done |]; split; [intros ? [=] |];
         split; [intros status message ?; simplify_eq/=;
                 split; [by right; left | done] |];
         split; [done | intros message [=]]).
  split; [intros Hnot; by destruct (Hnot elems) |].
  destruct (bool_decide (Exists _ (getCompanyUsers db users companyId)))
    eqn:Hmember; cbn [negb].
  2: { split; [done |]. split.
       - intros status message ?; simplify_eq/=. split; [by left | done].
       - split; [done | intros message [=]]. }
  apply bool_decide_eq_true in Hmember.
  apply Exists_exists in Hmember as (m & Hm & Hmu).
  unfold getCompanyUsers in Hm.
  apply list_elem_of_omap in Hm as (cu & Hcu & Hentry).
  apply list_elem_of_filter in Hcu as [[Hc Hactive] Hcu].
  apply memberEntry_Some in Hentry as (_ & Hmu' & _).
  assert (CompanyUser.userId cu = targetUserId) as Hu by congruence.
  set (validIds := Specialty.id
                     <$> getSpecialties db
                           (Some (getCompanyTradeId db companyId))).
  destruct (if bool_decide (0 < length elems)%nat then _ else false)
    eqn:Hinvalid.
  { split; [intros ? [= <-] Hnone; by destruct (Hnone cu Hcu) |]. split.
    - intros status message ?; simplify_eq/=. split; [by right; left | done].
    - split; [done | intros message [=]]. }
  assert (Forall2 (λ v id, set_find validIds v = Some id) elems
                  (omap (set_find validIds) elems)) as Hfound.
  { case_bool_decide as Hlen.
    - apply omap_set_find. by apply negb_false_iff.
    - destruct elems; [constructor | simpl in Hlen; lia]. }
  assert (∀ id, id ∈ omap (set_find validIds) elems →
            ∃ s, s ∈ specialties db ∧ Specialty.id s = id
                 ∧ ∀ co, (co ∈ companies db ∧ Company.id co = companyId
                          ∧ (∀ co', co' ∈ companies db →
                                    Company.id co' = companyId → co' = co)
                          ∧ Company.tradeId co ≠ 0%Z) →
                         Specialty.tradeId s = Company.tradeId co)
    as Hvalid.
  { intros id Hid. apply list_elem_of_omap in Hid as (v & _ & Hv).
    apply set_find_Some in Hv as [Hin _].
    apply list_elem_of_fmap in Hin as (s & -> & Hs).
    apply elem_of_getSpecialties in Hs as [Hs Htrade].
    exists s. split; [done |]. split; [done |].
    intros co (Hco & Hid & Huniq & Hne).
    rewrite (getCompanyTradeId_row db companyId co) in Htrade by done.
    assert (Some (Specialty.tradeId s) = Some (Company.tradeId co)) as [=];
      [| done].
    apply Htrade. simpl. by rewrite bool_decide_eq_false_2. }
  pose proof (setUserSpecialties_assigned accepts db targetUserId companyId
                (omap (set_find validIds) elems)) as Hset.
  cbv zeta in Hset.
  destruct (setUserSpecialties accepts db targetUserId companyId
              (omap (set_find validIds) elems))
    as [db' [[] |]]; simpl in Hset;
    destruct Hset as (Hok & Hthrow & Hother & Hspecs & Hcos & _).
  - split; [intros ? [= <-] Hnone; by destruct (Hnone cu Hcu) |]. split.
    { intros status message ?; simplify_eq/=.
      split; [by right; right | done]. }
    split; [done |].
    intros message _. simpl. exists elems, (omap (set_find validIds) elems).
    split; [done |]. split.
    { eapply Forall2_impl; [exact Hfound |].
      intros v id Hv. by apply set_find_Some in Hv as [_ ?]. }
    split; [by exists cu |]. split; [by rewrite Hok |].
    split; [done |]. split; [done |].
    intros co Hcompany u role id Hs Ho Ha. rewrite allowed_other by done.
    rewrite Hok by done. intros Hid.
    destruct (Hvalid id Hid) as (s & Hs' & Hsid & Hst).
    rewrite allowed_owner. apply elem_of_tradeSpecialtyIds.
    exists s. rewrite Hspecs. split; [done |]. split; [done |].
    rewrite (Hst co Hcompany).
    destruct Hcompany as (Hco & Hid' & Huniq & _).
    symmetry. apply getCompanyTradeId_row; [by rewrite Hcos | done |].
    intros co'. rewrite Hcos. apply Huniq.
  - split; [intros ? [= <-] Hnone; by destruct (Hnone cu Hcu) |].
    split; [intros; discriminate |].
    split; [| intros; discriminate].
    intros _. simpl. exists elems. split; [done |].
    destruct (Hthrow eq_refl) as [Hne Hnil].
    split; [| done].
    intros ->. by apply Hne.
Qed.
End PutSpecialtiesProps.

(** The owner of the example company assigns doors and windows to
    employee 12. *)
Lemma putUserSpecialties_outcome_witness :
  ∃ ids,
    Forall2 (λ v id, ∃ x, v = JNum x
                          ∧ PrimFloat.eqb (number_of_Z id) x = true)
            [JNum 3; JNum 4] ids
    ∧ assignedSpecialtyIds
        (putUserSpecialties (env := example_env) example_accepts
           example_users example_db 1 12
           (Some (JArr [JNum 3; JNum 4]))).1 12 1 ≡ₚ ids.
Proof.
  destruct (proj2 (proj2 (proj2 (proj2
              (putUserSpecialties_outcome (env := example_env)
                 example_accepts example_users example_db 1 12
                 (Some (JArr [JNum 3; JNum 4])))))) "ok")
    as (elems & ids & Hbody & Hnumbers & _ & Hassigned & _).
  - vm_compute. reflexivity.
  - injection Hbody as <-. exists ids. split; assumption.
Defined.

(** ** Invite links *)

Lemma getInviteToken_marked (inviteTokens : list InviteToken.t) (now : Z)
    (token : string) (userId : Z) (token' : string) :
  getInviteToken (markInviteTokenUsed inviteTokens now token userId) token'
  = (λ r, if decide (token' = token)
          then InviteToken.mk (InviteToken.id r) (InviteToken.token r)
                 (InviteToken.companyId r) (InviteToken.role r)
                 (InviteToken.expiresAt r) (Some now) (Some userId)
          else r) <$> getInviteToken inviteTokens token'.
Proof.
  unfold getInviteToken, markInviteTokenUsed.
  rewrite head_filter_fmap_stable by (intros r; by case_decide).
  destruct (head (filter _ inviteTokens)) as [r|] eqn:Hr; [| done].
  apply head_filter_elem in Hr as [_ Hr]. simpl. rewrite Hr.
  by destruct (decide (token' = token)).
Qed.

(** X17. Invite links are single use: [checkInvite] lets an invite through
    exactly when the token exists, has not been used and has not expired;
    once [markInviteTokenUsed] has run for a token that exists, every later
    check of that token is refused with 410 (already used), expired or
    not, while the check of any other token is unaffected. *)
Theorem invite_single_use (inviteTokens : list InviteToken.t) (now : Z)
    (token : string) :
  (∀ invite,
     checkInvite inviteTokens now token = inl invite
     ↔ getInviteToken inviteTokens token = Some invite
       ∧ InviteToken.usedAt invite = None
       ∧ (now ≤ InviteToken.expiresAt invite)%Z)
  ∧ (∀ usedAt userId,
       is_Some (getInviteToken inviteTokens token) →
       checkInvite (markInviteTokenUsed inviteTokens usedAt token userId)
                   now token
       = inr (410%Z, "This invite link has already been used"))
  ∧ (∀ usedAt userId token',
       token' ≠ token →
       checkInvite (markInviteTokenUsed inviteTokens usedAt token userId)
                   now token'
       = checkInvite inviteTokens now token').
Proof.
  split; [| split].
  - intros invite. unfold checkInvite.
    destruct (getInviteToken inviteTokens token) as [r|];
      [| by split; [| intros [? _]]].
    destruct (InviteToken.usedAt r) as [t|] eqn:Hused.
    { rewrite bool_decide_eq_true_2 by eauto. split; [done |].
      intros ([= <-] & Hnone & _). congruence. }
    rewrite bool_decide_eq_false_2 by (by intros [? ?]).
    case_bool_decide as Hexp.
    + split; [done |]. intros ([= <-] & _ & Hle). lia.
    + split.
      * intros [= <-]. split; [done |]. split; [done | lia].
      * by intros ([= <-] & _ & _).
  - intros usedAt userId [r Hr]. unfold checkInvite.
    rewrite getInviteToken_marked, Hr. simpl.
    rewrite decide_True by done. reflexivity.
  - intros usedAt userId token' Hne. unfold checkInvite.
    rewrite getInviteToken_marked.
    destruct (getInviteToken inviteTokens token') as [r|]; [| done].
    simpl. by rewrite decide_False by done.
Qed.

(** The open invite of the example data is accepted before it expires and
    refused once it has been used. *)
Lemma invite_single_use_witness :
  checkInvite (markInviteTokenUsed example_tokens 600 "abc123" 14) 700
              "abc123"
  = inr (410%Z, "This invite link has already been used").
Proof.
  apply (proj1 (proj2 (invite_single_use example_tokens 700 "abc123"))).
  vm_compute. eauto.
Defined.

(** ** Switching a membership on or off *)





Section ActiveHandlerProps.
Context {env : Env}.

End ActiveHandlerProps.

